(** * gcp-quota-comparer: a shallow embedding of [main.go]

    The program lists two sets of projects, pairs every "from" project with
    the first "to" project whose id satisfies a pattern derived from the
    from-project's id, fetches the compute quotas of both, and reports the
    metrics whose limits differ, first for the project and then region by
    region.

    The embedding follows [main.go] function by function.  Calls into the
    Google API clients, the [regexp] package and [fmt.Sprintf] are taken from
    a [World]; [log.Printf] lines and API calls are recorded in a trace;
    [log.Fatalf] and run-time panics end the run. *)

From Stdlib Require Import List Ascii String Bool ZArith.
From Stdlib Require Import Floats.SpecFloat.
Import ListNotations.
Open Scope string_scope.

Set Implicit Arguments.

(** ** Values *)

(** Go's [float64].  [==] is IEEE equality: a NaN differs from everything,
    itself included, and the two zeros are equal. *)
Definition float64 := spec_float.
Definition float64_eq (a b : float64) : bool := SFeqb a b.
Definition float64_ne (a b : float64) : bool := negb (SFeqb a b).

(** The float64 nearest to an integer, for the examples. *)
Definition float64_of_Z (z : Z) : float64 := binary_normalize 53 1024 z 0 false.

(** An [error] is identified with its message. *)
Definition error := string.

(** [Name] is the display name of a project, [ProjectId] its unique id. *)
Module cloudresourcemanager.
Record Project := { ProjectId : string; Name : string }.
End cloudresourcemanager.

(** The structures of the compute client, by the fields [main] reads.  The
    slices of pointers the client decodes ([Quotas], [Items]) hold no nil
    element. *)
Module compute.
Record Quota := { Metric : string; Limit : float64 }.
Module Project.
Record t := { Quotas : list Quota }.
End Project.
Module Region.
Record t := { Name : string; Quotas : list Quota }.
End Region.
Module RegionList.
Record t := { Items : list Region.t }.
End RegionList.
End compute.

Module regexp.
(** A compiled pattern, by the two methods [main] uses.
    [FindStringSubmatch] returns the nil slice, [[]], when the pattern does
    not match, and otherwise the whole match followed by the captures. *)
Record Regexp := {
  FindStringSubmatch : string -> list string;
  MatchString : string -> bool
}.
End regexp.

(** [type Quotas struct].  [project] is never nil in a value built by
    [GetQuotas]; [regionList] is nil after a failed region query. *)
Record Quotas := {
  projectId : string;
  project : compute.Project.t;
  regionList : option compute.RegionList.t
}.

(** [type Issue struct].  A field left out of a composite literal holds the
    zero value, the empty string for [region]. *)
Record Issue := {
  fromProjectId : string;
  toProjectId : string;
  region : string;
  metric : string;
  fromLimit : float64;
  toLimit : float64
}.

(** The command-line flags read by [main]. *)
Record Flags := {
  from : string;
  to : string;
  regexFrom : string;
  regexTo : string
}.

(** ** Effects *)

Inductive arg :=
| AString (s : string)
| AFloat (f : float64)
| AError (e : error).

Inductive call :=
| google_DefaultClient
| compute_NewService
| Projects_Get (projectId : string)
| Regions_List (projectId : string)
| cloudresourcemanager_NewService
| Projects_List (filter : string).

(** What the run does that can be seen from outside, in order. *)
Inductive event :=
| Printf (format : string) (args : list arg)
| Api (c : call).

Definition history := list event.

Inductive panic :=
| IndexOutOfRange (index length : nat)
| NilPointerDereference
| RegexpCompile (expr : string).

(** How a computation ends: it returns, or [log.Fatal]/[log.Fatalf] exits
    with status 1, or an unrecovered panic exits with status 2. *)
Inductive outcome (A : Type) :=
| Return (a : A)
| Fatal
| Panic (p : panic).
Arguments Return {A} a.
Arguments Fatal {A}.
Arguments Panic {A} p.

Definition aborted {A} (o : outcome A) : bool :=
  match o with Return _ => false | _ => true end.

Definition exit_status {A} (o : outcome A) : nat :=
  match o with Return _ => 0 | Fatal => 1 | Panic _ => 2 end.

Record state := {
  issues : list Issue;
  trace : history
}.

Definition M (A : Type) := state -> state * outcome A.

Definition ret {A} (a : A) : M A := fun st => (st, Return a).

Definition bind {A B} (c : M A) (k : A -> M B) : M B :=
  fun st =>
    match c st with
    | (st', Return a) => k a st'
    | (st', Fatal) => (st', Fatal)
    | (st', Panic p) => (st', Panic p)
    end.

Declare Scope go_scope.
Delimit Scope go_scope with go.
Notation "x <- c ;; k" := (bind c (fun x => k))
  (at level 61, c at next level, right associativity) : go_scope.
Notation "c ;; k" := (bind c (fun _ => k))
  (at level 61, right associativity) : go_scope.
Open Scope go_scope.

Definition emit (e : event) : M unit :=
  fun st => ({| issues := issues st; trace := (trace st ++ [e])%list |}, Return tt).

Definition log_Printf (format : string) (args : list arg) : M unit :=
  emit (Printf format args).

Definition exit1 {A} : M A := fun st => (st, Fatal).

Definition log_Fatalf {A} (format : string) (args : list arg) : M A :=
  emit (Printf format args) ;; exit1.

Definition log_Fatal {A} (err : error) : M A :=
  emit (Printf "%v" [AError err]) ;; exit1.

Definition raise {A} (p : panic) : M A := fun st => (st, Panic p).

(** [issues = append(issues, i)] *)
Definition append_issue (i : Issue) : M unit :=
  fun st => ({| issues := (issues st ++ [i])%list; trace := trace st |}, Return tt).

(** [issues := []Issue{}] *)
Definition reset_issues : M unit :=
  fun st => ({| issues := []; trace := trace st |}, Return tt).

(** Following a pointer: a nil one panics. *)
Definition deref {A} (p : option A) : M A :=
  match p with
  | Some a => ret a
  | None => raise NilPointerDereference
  end.

(** [s[i]] on a slice. *)
Definition index {A} (s : list A) (i : nat) : M A :=
  match nth_error s i with
  | Some a => ret a
  | None => raise (IndexOutOfRange i (List.length s))
  end.

(** [for _, x := range l { body }], where the body neither breaks out of the
    loop nor changes [l]. *)
Fixpoint range {A} (l : list A) (body : A -> M unit) : M unit :=
  match l with
  | [] => ret tt
  | x :: rest => body x ;; range rest body
  end.

(** ** The world outside

    The answer of an API call may depend on everything that happened before
    it, so each oracle reads the history. *)
Record World := {
  regexp_MustCompile : string -> option regexp.Regexp;
  fmt_Sprintf : string -> string -> string;
  google_DefaultClient_Do : history -> option error;
  compute_NewService_Do : history -> option error;
  Projects_Get_Do : history -> string -> error + compute.Project.t;
  Regions_List_Do : history -> string -> error + compute.RegionList.t;
  cloudresourcemanager_NewService_Do : history -> option error;
  Projects_List_Do : history -> string -> error + list cloudresourcemanager.Project
}.

(** An API call: the answer is the oracle's at the current history, and the
    call is recorded. *)
Definition api {A} (c : call) (oracle : history -> A) : M A :=
  fun st =>
    ({| issues := issues st; trace := (trace st ++ [Api c])%list |},
     Return (oracle (trace st))).

Section Program.

Variable W : World.
Variable flags : Flags.

(** [regexp.MustCompile] panics on an expression that does not parse. *)
Definition MustCompile (expr : string) : M regexp.Regexp :=
  match regexp_MustCompile W expr with
  | Some r => ret r
  | None => raise (RegexpCompile expr)
  end.

(** [func GetQuotas(projectId string) (error, *Quotas)] *)
Definition GetQuotas (projectId : string) : M (option error * option Quotas) :=
  err <- api google_DefaultClient (google_DefaultClient_Do W) ;;
  match err with
  | Some err => ret (Some ("Error creating Google client: " ++ err), None)
  | None =>
    err <- api compute_NewService (compute_NewService_Do W) ;;
    match err with
    | Some err => log_Fatalf "Failure when getting compute service: %v" [AError err]
    | None =>
      r <- api (Projects_Get projectId) (fun h => Projects_Get_Do W h projectId) ;;
      match r with
      | inl err =>
        log_Printf "Failure when querying project quotas: %v" [AError err] ;;
        ret (None, None)
      | inr project =>
        r <- api (Regions_List projectId) (fun h => Regions_List_Do W h projectId) ;;
        regionList <-
          match r with
          | inl err =>
            log_Printf "Failure when querying region quotas: %v" [AError err] ;;
            ret None
          | inr regionList => ret (Some regionList)
          end ;;
        ret (None, Some {| projectId := projectId;
                           project := project;
                           regionList := regionList |})
      end
    end
  end.

(** [func GetProjects(query string) ([]*cloudresourcemanager.Project, error)] *)
Definition GetProjects (query : string)
  : M (error + list cloudresourcemanager.Project) :=
  err <- api cloudresourcemanager_NewService (cloudresourcemanager_NewService_Do W) ;;
  match err with
  | Some err => ret (inl err)
  | None =>
    let filter := "lifecycleState:ACTIVE" ++ " " ++ query in
    log_Printf "Project filter: %v" [AString filter] ;;
    r <- api (Projects_List filter) (fun h => Projects_List_Do W h filter) ;;
    match r with
    | inl err => ret (inl err)
    | inr projects => ret (inr projects)
    end
  end.

(** [func GetProjectIds(p []*cloudresourcemanager.Project) []string] *)
Definition GetProjectIds (p : list cloudresourcemanager.Project) : list string :=
  map cloudresourcemanager.ProjectId p.

(** The search loops of [main]: the first entry that passes the test, or nil. *)
Definition findQuota (metric : string) (quotas : list compute.Quota)
  : option compute.Quota :=
  find (fun q => String.eqb (compute.Metric q) metric) quotas.

Definition findRegion (name : string) (items : list compute.Region.t)
  : option compute.Region.t :=
  find (fun toRegion => String.eqb (compute.Region.Name toRegion) name) items.

Definition findProject (r1 : regexp.Regexp)
  (toProjects : list cloudresourcemanager.Project)
  : option cloudresourcemanager.Project :=
  find (fun toProject =>
          regexp.MatchString r1 (cloudresourcemanager.ProjectId toProject))
       toProjects.

Section Pair.

Variable fromProject toProjectFound : cloudresourcemanager.Project.
Variable fromProjectQuotas toProjectQuotas : option Quotas.

(** Body of the loop over the project quotas of the from side. *)
Definition projectQuotaBody (fromProjectQuota : compute.Quota) : M unit :=
  let fromProjectQuotaMetric := compute.Metric fromProjectQuota in
  let fromProjectQuotaLimit := compute.Limit fromProjectQuota in
  tq <- deref toProjectQuotas ;;
  match findQuota fromProjectQuotaMetric (compute.Project.Quotas (project tq)) with
  | None =>
    log_Printf "[%s]: Metric %s does not exist"
      [AString (cloudresourcemanager.ProjectId fromProject);
       AString fromProjectQuotaMetric]
  | Some toProjectQuota =>
    let toProjectQuotaMetric := compute.Metric toProjectQuota in
    let toProjectQuotaLimit := compute.Limit toProjectQuota in
    if float64_ne toProjectQuotaLimit fromProjectQuotaLimit then
      log_Printf "[%s] [%s] (%f) limit differs from [%s] [%s] (%f)"
        [AString (cloudresourcemanager.ProjectId fromProject);
         AString fromProjectQuotaMetric;
         AFloat fromProjectQuotaLimit;
         AString (cloudresourcemanager.ProjectId toProjectFound);
         AString toProjectQuotaMetric;
         AFloat toProjectQuotaLimit] ;;
      append_issue {| fromProjectId := cloudresourcemanager.Name fromProject;
                      toProjectId := cloudresourcemanager.Name toProjectFound;
                      region := "";
                      metric := fromProjectQuotaMetric;
                      fromLimit := fromProjectQuotaLimit;
                      toLimit := toProjectQuotaLimit |}
    else ret tt
  end.

(** Body of the loop over the quotas of one from-region. *)
Definition regionQuotaBody (fromRegion toRegionFound : compute.Region.t)
  (fromRegionQuota : compute.Quota) : M unit :=
  let fromRegionName := compute.Region.Name fromRegion in
  let fromRegionQuotaMetric := compute.Metric fromRegionQuota in
  let fromRegionQuotaLimit := compute.Limit fromRegionQuota in
  match findQuota fromRegionQuotaMetric (compute.Region.Quotas toRegionFound) with
  | None =>
    log_Printf "[%s]/%s: Metric %s does not exist"
      [AString (cloudresourcemanager.ProjectId fromProject);
       AString (compute.Region.Name toRegionFound);
       AString fromRegionQuotaMetric]
  | Some toRegionQuotaFound =>
    let toRegionQuotaMetric := compute.Metric toRegionQuotaFound in
    let toRegionQuotaLimit := compute.Limit toRegionQuotaFound in
    if float64_ne toRegionQuotaLimit fromRegionQuotaLimit then
      log_Printf "[%s/%s] [%s] (%f) limit differs from [%s/%s] [%s] (%f)"
        [AString (cloudresourcemanager.ProjectId fromProject);
         AString fromRegionName;
         AString fromRegionQuotaMetric;
         AFloat fromRegionQuotaLimit;
         AString (cloudresourcemanager.ProjectId toProjectFound);
         AString (compute.Region.Name toRegionFound);
         AString toRegionQuotaMetric;
         AFloat toRegionQuotaLimit] ;;
      append_issue {| fromProjectId := cloudresourcemanager.Name fromProject;
                      toProjectId := cloudresourcemanager.Name toProjectFound;
                      region := fromRegionName;
                      metric := fromRegionQuotaMetric;
                      fromLimit := fromRegionQuotaLimit;
                      toLimit := toRegionQuotaLimit |}
    else ret tt
  end.

(** Body of the loop over the regions of the from side. *)
Definition regionBody (fromRegion : compute.Region.t) : M unit :=
  let fromRegionName := compute.Region.Name fromRegion in
  tq <- deref toProjectQuotas ;;
  trl <- deref (regionList tq) ;;
  match findRegion fromRegionName (compute.RegionList.Items trl) with
  | None =>
    log_Printf "[%s]: Region %s does not exist"
      [AString (cloudresourcemanager.ProjectId fromProject);
       AString fromRegionName]
  | Some toRegionFound =>
    range (compute.Region.Quotas fromRegion)
          (regionQuotaBody fromRegion toRegionFound)
  end.

(** The project-level loop of [main]. *)
Definition projectPass : M unit :=
  fq <- deref fromProjectQuotas ;;
  range (compute.Project.Quotas (project fq)) projectQuotaBody.

(** The region-level loop of [main] ("check regions"). *)
Definition regionPass : M unit :=
  fq <- deref fromProjectQuotas ;;
  frl <- deref (regionList fq) ;;
  range (compute.RegionList.Items frl) regionBody.

(** The comparison of a matched pair: both passes, in the order of [main]. *)
Definition diff : M unit :=
  projectPass ;; regionPass.

End Pair.

(** Body of [if toProjectFound != nil]: the to side is fetched, then the pair
    is compared. *)
Definition foundBody (fromProject : cloudresourcemanager.Project)
  (fromProjectQuotas : option Quotas)
  (toProjectFound : cloudresourcemanager.Project) : M unit :=
  g <- GetQuotas (cloudresourcemanager.ProjectId toProjectFound) ;;
  let '(err, toProjectQuotas) := g in
  match err with
  | Some err =>
    log_Fatalf "Error with project %s: %s"
      [AString (cloudresourcemanager.ProjectId fromProject); AError err]
  | None =>
    diff fromProject toProjectFound fromProjectQuotas toProjectQuotas
  end.

(** Body of the loop of [main] over the from-projects. *)
Definition fromProjectBody (toProjects : list cloudresourcemanager.Project)
  (fromProject : cloudresourcemanager.Project) : M unit :=
  r <- MustCompile (regexFrom flags) ;;
  let projectNameMatch :=
    regexp.FindStringSubmatch r (cloudresourcemanager.ProjectId fromProject) in
  projectName <- index projectNameMatch 1 ;;
  r1 <- MustCompile (fmt_Sprintf W (regexTo flags) projectName) ;;
  g <- GetQuotas (cloudresourcemanager.ProjectId fromProject) ;;
  let '(err, fromProjectQuotas) := g in
  match err with
  | Some err =>
    log_Fatalf "Error with project %s: %s"
      [AString (cloudresourcemanager.ProjectId fromProject); AError err]
  | None =>
    match findProject r1 toProjects with
    | None => ret tt
    | Some toProjectFound =>
      foundBody fromProject fromProjectQuotas toProjectFound
    end
  end.

(** [func main()] *)
Definition main : M unit :=
  r <- GetProjects (from flags) ;;
  reset_issues ;;
  match r with
  | inl err => log_Fatal err
  | inr fromProjects =>
    r <- GetProjects (to flags) ;;
    match r with
    | inl err => log_Fatal err
    | inr toProjects => range fromProjects (fromProjectBody toProjects)
    end
  end.

End Program.

Definition initial : state := {| issues := []; trace := [] |}.

(** ** A concrete world for the examples

    Two environments of a small organisation.  The regular expressions are
    the defaults of the flags; [Demo.regexp_answers] lists what Go's [regexp]
    answers for them on the project ids that occur below. *)
Module Demo.

Definition flags : Flags :=
  {| from := "labels.environment=dev";
     to := "labels.environment=staging";
     regexFrom := "prj-\w+-(?P<Name>.*)-[a-zA-Z0-9]{4}$";
     regexTo := "prj-\w+-%s-[a-zA-Z0-9]{4}$" |}.

(** [fmt.Sprintf] for a format whose only verb is one [%s]. *)
Fixpoint Sprintf (format a : string) : string :=
  match format with
  | EmptyString => EmptyString
  | String "%"%char (String "s"%char rest) => a ++ rest
  | String c rest => String c (Sprintf rest a)
  end.

(** expression, text, [FindStringSubmatch] of the expression on the text *)
Definition regexp_answers : list (string * string * list string) :=
  [ ("prj-\w+-(?P<Name>.*)-[a-zA-Z0-9]{4}$", "prj-dev-billing-ab12",
     ["prj-dev-billing-ab12"; "billing"]);
    ("prj-\w+-(?P<Name>.*)-[a-zA-Z0-9]{4}$", "prj-dev-web-ef56",
     ["prj-dev-web-ef56"; "web"]);
    ("prj-\w+-billing-[a-zA-Z0-9]{4}$", "prj-staging-billing-cd34",
     ["prj-staging-billing-cd34"]);
    ("prj-\w+-web-[a-zA-Z0-9]{4}$", "prj-staging-web-gh78",
     ["prj-staging-web-gh78"]) ].

(** Every other text in the examples is one the expression does not match. *)
Definition submatch (expr s : string) : list string :=
  match find (fun a => String.eqb (fst (fst a)) expr && String.eqb (snd (fst a)) s)
             regexp_answers with
  | Some a => snd a
  | None => []
  end.

Definition compile (expr : string) : regexp.Regexp :=
  {| regexp.FindStringSubmatch := submatch expr;
     regexp.MatchString := fun s =>
       match submatch expr s with [] => false | _ => true end |}.

(** What the two Google APIs hold. *)
Record Cloud := {
  directory : string -> list cloudresourcemanager.Project;
  projectQuotas : string -> error + compute.Project.t;
  regionQuotas : string -> error + compute.RegionList.t
}.

Definition world (c : Cloud) : World :=
  {| regexp_MustCompile := fun expr => Some (compile expr);
     fmt_Sprintf := Sprintf;
     google_DefaultClient_Do := fun _ => None;
     compute_NewService_Do := fun _ => None;
     Projects_Get_Do := fun _ => projectQuotas c;
     Regions_List_Do := fun _ => regionQuotas c;
     cloudresourcemanager_NewService_Do := fun _ => None;
     Projects_List_Do := fun _ filter => inr (directory c filter) |}.

Definition prj (id name : string) : cloudresourcemanager.Project :=
  {| cloudresourcemanager.ProjectId := id; cloudresourcemanager.Name := name |}.

Definition quota (m : string) (l : Z) : compute.Quota :=
  {| compute.Metric := m; compute.Limit := float64_of_Z l |}.

Definition quotas (l : list compute.Quota) : compute.Project.t :=
  {| compute.Project.Quotas := l |}.

Definition reg (name : string) (l : list compute.Quota) : compute.Region.t :=
  {| compute.Region.Name := name; compute.Region.Quotas := l |}.

Definition regions (l : list compute.Region.t) : compute.RegionList.t :=
  {| compute.RegionList.Items := l |}.

Definition dev_billing := prj "prj-dev-billing-ab12" "Billing (dev)".
Definition dev_web := prj "prj-dev-web-ef56" "Web (dev)".
Definition dev_legacy := prj "legacy-tools" "Legacy tools".
Definition staging_billing := prj "prj-staging-billing-cd34" "Billing (staging)".
Definition staging_web := prj "prj-staging-web-gh78" "Web (staging)".

(** The directory answers the two filters [GetProjects] builds. *)
Definition listing (devs stagings : list cloudresourcemanager.Project)
  (filter : string) : list cloudresourcemanager.Project :=
  if String.eqb filter "lifecycleState:ACTIVE labels.environment=dev" then devs
  else if String.eqb filter "lifecycleState:ACTIVE labels.environment=staging"
  then stagings
  else [].

(** Quota tables keyed by project id; a project that is not listed cannot
    be queried. *)
Definition lookup {A} (table : list (string * A)) (id : string) : error + A :=
  match find (fun e => String.eqb (fst e) id) table with
  | Some e => inr (snd e)
  | None => inl "googleapi: Error 403: Forbidden"
  end.

End Demo.

(** ** Runs that only add to the state

    The comparison loops make no API call: when the pointers they follow are
    not nil they return, after appending some issues and some log lines. *)

Open Scope list_scope.

Definition extend (st : state) (iss : list Issue) (es : history) : state :=
  {| issues := (issues st ++ iss)%list; trace := (trace st ++ es)%list |}.

Definition adds (c : M unit) (iss : list Issue) (es : history) : Prop :=
  forall st, c st = (extend st iss es, Return tt).

(** What one from-quota contributes when it is compared against [toQuotas]:
    the issue, if any, and the log line, if any. *)
Section Contribution.

Variable fromProject toProjectFound : cloudresourcemanager.Project.

Definition quotaIssues (regionName : string) (toQuotas : list compute.Quota)
  (q : compute.Quota) : list Issue :=
  match findQuota (compute.Metric q) toQuotas with
  | None => []
  | Some q' =>
    if float64_ne (compute.Limit q') (compute.Limit q) then
      [ {| fromProjectId := cloudresourcemanager.Name fromProject;
           toProjectId := cloudresourcemanager.Name toProjectFound;
           region := regionName;
           metric := compute.Metric q;
           fromLimit := compute.Limit q;
           toLimit := compute.Limit q' |} ]
    else []
  end.

Definition metricMissing (m : string) : event :=
  Printf "[%s]: Metric %s does not exist"
    [AString (cloudresourcemanager.ProjectId fromProject); AString m].

Definition regionMetricMissing (regionName m : string) : event :=
  Printf "[%s]/%s: Metric %s does not exist"
    [AString (cloudresourcemanager.ProjectId fromProject);
     AString regionName; AString m].

Definition regionMissing (regionName : string) : event :=
  Printf "[%s]: Region %s does not exist"
    [AString (cloudresourcemanager.ProjectId fromProject); AString regionName].

Definition projectQuotaEvents (toQuotas : list compute.Quota)
  (q : compute.Quota) : history :=
  match findQuota (compute.Metric q) toQuotas with
  | None => [metricMissing (compute.Metric q)]
  | Some q' =>
    if float64_ne (compute.Limit q') (compute.Limit q) then
      [Printf "[%s] [%s] (%f) limit differs from [%s] [%s] (%f)"
         [AString (cloudresourcemanager.ProjectId fromProject);
          AString (compute.Metric q);
          AFloat (compute.Limit q);
          AString (cloudresourcemanager.ProjectId toProjectFound);
          AString (compute.Metric q');
          AFloat (compute.Limit q')]]
    else []
  end.

Definition regionQuotaEvents (fromRegion toRegion : compute.Region.t)
  (q : compute.Quota) : history :=
  match findQuota (compute.Metric q) (compute.Region.Quotas toRegion) with
  | None =>
    [regionMetricMissing (compute.Region.Name toRegion) (compute.Metric q)]
  | Some q' =>
    if float64_ne (compute.Limit q') (compute.Limit q) then
      [Printf "[%s/%s] [%s] (%f) limit differs from [%s/%s] [%s] (%f)"
         [AString (cloudresourcemanager.ProjectId fromProject);
          AString (compute.Region.Name fromRegion);
          AString (compute.Metric q);
          AFloat (compute.Limit q);
          AString (cloudresourcemanager.ProjectId toProjectFound);
          AString (compute.Region.Name toRegion);
          AString (compute.Metric q');
          AFloat (compute.Limit q')]]
    else []
  end.

Definition regionIssues (toItems : list compute.Region.t)
  (r : compute.Region.t) : list Issue :=
  match findRegion (compute.Region.Name r) toItems with
  | None => []
  | Some r' =>
    flat_map (quotaIssues (compute.Region.Name r) (compute.Region.Quotas r'))
             (compute.Region.Quotas r)
  end.

Definition regionEvents (toItems : list compute.Region.t)
  (r : compute.Region.t) : history :=
  match findRegion (compute.Region.Name r) toItems with
  | None => [regionMissing (compute.Region.Name r)]
  | Some r' => flat_map (regionQuotaEvents r r') (compute.Region.Quotas r)
  end.

End Contribution.

(** What the region pass adds when neither snapshot is nil.  With a nil
    region list on either side the pass panics before it adds anything. *)
Definition regionPassIssues (fromProject toProjectFound : cloudresourcemanager.Project)
  (fq tq : Quotas) : list Issue :=
  match regionList fq, regionList tq with
  | Some frl, Some trl =>
    flat_map (regionIssues fromProject toProjectFound (compute.RegionList.Items trl))
             (compute.RegionList.Items frl)
  | _, _ => []
  end.

Definition regionPassEvents (fromProject toProjectFound : cloudresourcemanager.Project)
  (fq tq : Quotas) : history :=
  match regionList fq, regionList tq with
  | Some frl, Some trl =>
    flat_map (regionEvents fromProject toProjectFound (compute.RegionList.Items trl))
             (compute.RegionList.Items frl)
  | _, _ => []
  end.

(** ** Snapshots as data *)

Definition metrics (l : list compute.Quota) : list string :=
  map compute.Metric l.

Definition regionNames (rs : list compute.Region.t) : list string :=
  map compute.Region.Name rs.

(** Two quota lists hold the same metrics, and entries of the same metric
    have limits that are [==]. *)
Definition same_metrics (l l' : list compute.Quota) : Prop :=
  forall m, In m (metrics l) <-> In m (metrics l').

Definition same_limits (l l' : list compute.Quota) : Prop :=
  forall q q', In q l -> In q' l' -> compute.Metric q = compute.Metric q' ->
    float64_eq (compute.Limit q) (compute.Limit q') = true.

Definition same_quotas (l l' : list compute.Quota) : Prop :=
  same_metrics l l' /\ same_limits l l'.

Definition same_regions (rs rs' : list compute.Region.t) : Prop :=
  (forall n, In n (regionNames rs) <-> In n (regionNames rs')) /\
  (forall r r', In r rs -> In r' rs' ->
     compute.Region.Name r = compute.Region.Name r' ->
     same_quotas (compute.Region.Quotas r) (compute.Region.Quotas r')).

(** The uniqueness the data model asks for: a metric occurs once in the list
    that owns it, and a region name once in the region list. *)
Record unique (p : compute.Project.t) (rl : compute.RegionList.t) : Prop := {
  unique_project : NoDup (metrics (compute.Project.Quotas p));
  unique_names : NoDup (regionNames (compute.RegionList.Items rl));
  unique_region : forall r, In r (compute.RegionList.Items rl) ->
                    NoDup (metrics (compute.Region.Quotas r))
}.

(** Where a quota entry lives: in the project, or in the region of a name. *)
Definition scope := option string.

Definition scopeName (s : scope) : string :=
  match s with None => "" | Some n => n end.

Definition quotasAt (p : compute.Project.t) (rl : compute.RegionList.t)
  (s : scope) : list compute.Quota :=
  match s with
  | None => compute.Project.Quotas p
  | Some n =>
    match findRegion n (compute.RegionList.Items rl) with
    | Some r => compute.Region.Quotas r
    | None => []
    end
  end.

(** ** Scenarios *)
Module Scenario.
Import Demo.

Definition dev_regions : compute.RegionList.t :=
  regions [reg "us-east1" [quota "DISKS_TOTAL_GB" 500; quota "CPUS" 24];
           reg "europe-west1" [quota "CPUS" 8]].

Definition dev_snapshot : Quotas :=
  {| projectId := "prj-dev-billing-ab12";
     project := quotas [quota "CPUS" 24; quota "NETWORKS" 5];
     regionList := Some dev_regions |}.

(** The same entries as [dev_snapshot], listed in another order. *)
Definition staging_regions : compute.RegionList.t :=
  regions [reg "europe-west1" [quota "CPUS" 8];
           reg "us-east1" [quota "CPUS" 24; quota "DISKS_TOTAL_GB" 500]].

Definition staging_snapshot : Quotas :=
  {| projectId := "prj-staging-billing-cd34";
     project := quotas [quota "NETWORKS" 5; quota "CPUS" 24];
     regionList := Some staging_regions |}.

(** As [staging_snapshot], but for the disks of us-east1. *)
Definition staging_regions_more_disks : compute.RegionList.t :=
  regions [reg "europe-west1" [quota "CPUS" 8];
           reg "us-east1" [quota "CPUS" 24; quota "DISKS_TOTAL_GB" 1000]].

Definition staging_snapshot_more_disks : Quotas :=
  {| projectId := "prj-staging-billing-cd34";
     project := quotas [quota "NETWORKS" 5; quota "CPUS" 24];
     regionList := Some staging_regions_more_disks |}.

(** One billing project in each environment; staging has more CPUs, and no
    region us-east1. *)
Definition cloud_cpus : Cloud :=
  {| directory := listing [dev_billing] [staging_billing];
     projectQuotas :=
       lookup [("prj-dev-billing-ab12", quotas [quota "CPUS" 24]);
               ("prj-staging-billing-cd34", quotas [quota "CPUS" 32])];
     regionQuotas :=
       lookup [("prj-dev-billing-ab12",
                regions [reg "us-east1" [quota "DISKS_TOTAL_GB" 500]]);
               ("prj-staging-billing-cd34", regions [])] |}.

(** The quotas of the staging billing project cannot be read; the dev billing
    project has no quota entry and no region.  The web projects differ in
    CPUs. *)
Definition cloud_to_unreadable : Cloud :=
  {| directory := listing [dev_billing; dev_web] [staging_billing; staging_web];
     projectQuotas :=
       lookup [("prj-dev-billing-ab12", quotas []);
               ("prj-dev-web-ef56", quotas [quota "CPUS" 24]);
               ("prj-staging-web-gh78", quotas [quota "CPUS" 32])];
     regionQuotas :=
       lookup [("prj-dev-billing-ab12", regions []);
               ("prj-dev-web-ef56", regions []);
               ("prj-staging-web-gh78", regions [])] |}.

(** The region list of the dev billing project cannot be read. *)
Definition cloud_regions_unreadable : Cloud :=
  {| directory := listing [dev_billing] [staging_billing];
     projectQuotas :=
       lookup [("prj-dev-billing-ab12", quotas [quota "CPUS" 24]);
               ("prj-staging-billing-cd34", quotas [quota "CPUS" 24])];
     regionQuotas :=
       lookup [("prj-staging-billing-cd34",
                regions [reg "us-east1" [quota "DISKS_TOTAL_GB" 500]])] |}.

(** A dev project whose id does not follow the naming convention comes first. *)
Definition cloud_legacy : Cloud :=
  {| directory := listing [dev_legacy; dev_billing] [staging_billing];
     projectQuotas :=
       lookup [("legacy-tools", quotas [quota "CPUS" 24]);
               ("prj-dev-billing-ab12", quotas [quota "CPUS" 24]);
               ("prj-staging-billing-cd34", quotas [quota "CPUS" 32])];
     regionQuotas :=
       lookup [("legacy-tools", regions []);
               ("prj-dev-billing-ab12", regions []);
               ("prj-staging-billing-cd34", regions [])] |}.

(** The dev billing project has no counterpart in staging. *)
Definition cloud_unmatched : Cloud :=
  {| directory := listing [dev_billing] [staging_web];
     projectQuotas :=
       lookup [("prj-dev-billing-ab12", quotas [quota "CPUS" 24]);
               ("prj-staging-web-gh78", quotas [quota "CPUS" 32])];
     regionQuotas :=
       lookup [("prj-dev-billing-ab12", regions []);
               ("prj-staging-web-gh78", regions [])] |}.

(** The runs of [main] in these clouds. *)
Definition run (c : Cloud) : state * outcome unit :=
  main (world c) flags initial.

Definition run_cpus := run cloud_cpus.
Definition run_to_unreadable := run cloud_to_unreadable.
Definition run_regions_unreadable := run cloud_regions_unreadable.
Definition run_legacy := run cloud_legacy.
Definition run_unmatched := run cloud_unmatched.

(** The two patterns at work for the billing projects. *)
Definition source_pattern : regexp.Regexp := compile (regexFrom flags).
Definition billing_pattern : regexp.Regexp :=
  compile (Sprintf (regexTo flags) "billing").

End Scenario.

(** ** Outages

    Worlds in which something other than a quota query goes wrong. *)
Module Outage.
Import Demo.

(** The parts of a world that the scenarios above keep fixed, made
    adjustable: which expressions compile, whether a Google client and a
    directory service can be had, and what the directory answers. *)
Definition world_with (c : Cloud)
  (compiles : string -> bool)
  (client : history -> option error)
  (directory_service : history -> option error)
  (listing_error : string -> option error) : World :=
  {| regexp_MustCompile := fun expr =>
       if compiles expr then Some (compile expr) else None;
     fmt_Sprintf := Sprintf;
     google_DefaultClient_Do := client;
     compute_NewService_Do := fun _ => None;
     Projects_Get_Do := fun _ => projectQuotas c;
     Regions_List_Do := fun _ => regionQuotas c;
     cloudresourcemanager_NewService_Do := directory_service;
     Projects_List_Do := fun _ filter =>
       match listing_error filter with
       | Some err => inl err
       | None => inr (directory c filter)
       end |}.

(** No application credentials: no Google client can be created. *)
Definition no_credentials : World :=
  world_with Scenario.cloud_cpus (fun _ => true)
    (fun _ => Some "google: could not find default credentials")
    (fun _ => None) (fun _ => None).

(** The directory service cannot be created. *)
Definition no_directory : World :=
  world_with Scenario.cloud_cpus (fun _ => true) (fun _ => None)
    (fun _ => Some "google: could not find default credentials")
    (fun _ => None).

(** The staging environment cannot be listed. *)
Definition staging_unlisted : World :=
  world_with Scenario.cloud_cpus (fun _ => true) (fun _ => None) (fun _ => None)
    (fun filter =>
       if String.eqb filter "lifecycleState:ACTIVE labels.environment=staging"
       then Some "googleapi: Error 403: Forbidden" else None).

(** An expression with an open group does not compile. *)
Definition open_group : string := "prj-(".

Definition strict : string -> bool :=
  fun expr => negb (String.eqb expr open_group).

Definition open_group_flags : Flags :=
  {| from := from flags; to := to flags;
     regexFrom := open_group; regexTo := regexTo flags |}.

(** The dev environment holds no project. *)
Definition cloud_no_dev : Cloud :=
  {| directory := listing [] [staging_billing];
     projectQuotas := projectQuotas Scenario.cloud_cpus;
     regionQuotas := regionQuotas Scenario.cloud_cpus |}.

Definition strict_world (c : Cloud) : World :=
  world_with c strict (fun _ => None) (fun _ => None) (fun _ => None).

(** A source pattern without a capture group: the billing target pattern
    used on the from side. *)
Definition groupless_flags : Flags :=
  {| from := from flags; to := to flags;
     regexFrom := "prj-\w+-billing-[a-zA-Z0-9]{4}$"; regexTo := regexTo flags |}.

(** A name that leaves the group of the target template open. *)
Definition open_template_flags : Flags :=
  {| from := from flags; to := to flags;
     regexFrom := regexFrom flags; regexTo := "prj-(%s" |}.

Definition strict_open_template : string -> bool :=
  fun expr => negb (String.eqb expr "prj-(billing").

Definition open_template_world : World :=
  world_with Scenario.cloud_cpus strict_open_template
    (fun _ => None) (fun _ => None) (fun _ => None).

(** Limits that are a NaN and the two zeros. *)
Definition nan_quota (m : string) : compute.Quota :=
  {| compute.Metric := m; compute.Limit := S754_nan |}.

Definition zero_quota (m : string) (negative : bool) : compute.Quota :=
  {| compute.Metric := m; compute.Limit := S754_zero negative |}.

End Outage.

(** A computation that only adds to the state it starts in, however it
    ends. *)
Definition grows {A} (c : M A) : Prop :=
  forall st, exists iss es, fst (c st) = extend st iss es.

(** A computation that calls no API and never exits through [log.Fatalf]:
    it appends issues and log lines, and returns or follows a nil pointer. *)
Definition quiet {A} (c : M A) : Prop :=
  forall st, exists iss es,
    fst (c st) = extend st iss es /\
    (forall e, In e es -> exists format args, e = Printf format args) /\
    snd (c st) <> Fatal /\
    (forall p, snd (c st) = Panic p -> p = NilPointerDereference).

Definition empty {A} (l : list A) : bool :=
  match l with [] => true | _ :: _ => false end.

(** The pairs of snapshot pointers the comparison gets through: the from side
    and its region list are there, and the to side and its region list are
    there wherever the from side has an entry to look up in them. *)
Definition comparable (fromProjectQuotas toProjectQuotas : option Quotas) : bool :=
  match fromProjectQuotas with
  | None => false
  | Some fq =>
    match regionList fq with
    | None => false
    | Some frl =>
      match toProjectQuotas with
      | None => empty (compute.Project.Quotas (project fq))
                && empty (compute.RegionList.Items frl)
      | Some tq =>
        match regionList tq with
        | None => empty (compute.RegionList.Items frl)
        | Some _ => true
        end
      end
    end
  end.

(** ** Tactics for closed examples *)

(** Membership in a list that is written out, case by case. *)
Ltac in_cases :=
  repeat match goal with
         | H : In _ (_ :: _) |- _ => destruct H as [H|H]; [try subst|]
         | H : In _ [] |- _ => destruct H
         | H : _ \/ _ |- _ => destruct H as [H|H]; [try subst|]
         | H : False |- _ => destruct H
         end.

(** A list of distinct literals has no duplicates. *)
Ltac no_dup := repeat constructor; simpl; intuition discriminate.

(** Every log line of a trace that is written out has the given format. *)
Ltac only_format H :=
  vm_compute in H;
  repeat (destruct H as [H|H]; [try discriminate H; try (now inversion H)|]);
  destruct H.

Lemma extend_nil st : extend st [] [] = st.
Proof.
  destruct st as [iss es]. unfold extend. simpl. now rewrite !app_nil_r.
Qed.

Lemma extend_extend st iss es iss' es' :
  extend (extend st iss es) iss' es' = extend st (iss ++ iss') (es ++ es').
Proof.
  unfold extend. simpl. now rewrite !app_assoc.
Qed.

Lemma adds_ret : adds (ret tt) [] [].
Proof. intros st. unfold ret. now rewrite extend_nil. Qed.

Lemma adds_log_Printf format args :
  adds (log_Printf format args) [] [Printf format args].
Proof.
  intros st. unfold log_Printf, emit, extend. now rewrite app_nil_r.
Qed.

Lemma adds_append_issue i : adds (append_issue i) [i] [].
Proof.
  intros st. unfold append_issue, extend. now rewrite app_nil_r.
Qed.

Lemma adds_seq c k iss es iss' es' :
  adds c iss es -> adds k iss' es' ->
  adds (c ;; k) (iss ++ iss') (es ++ es').
Proof.
  intros Hc Hk st. unfold bind. rewrite Hc, Hk. now rewrite extend_extend.
Qed.

Lemma adds_range A (body : A -> M unit) fi fe (l : list A) :
  (forall x, In x l -> adds (body x) (fi x) (fe x)) ->
  adds (range l body) (flat_map fi l) (flat_map fe l).
Proof.
  induction l as [|x l IH]; intros H; simpl.
  - apply adds_ret.
  - apply adds_seq.
    + apply H. now left.
    + apply IH. intros y Hy. apply H. now right.
Qed.

Section PairRuns.

Variable fromProject toProjectFound : cloudresourcemanager.Project.

Lemma projectQuotaBody_adds tq q :
  adds (projectQuotaBody fromProject toProjectFound (Some tq) q)
       (quotaIssues fromProject toProjectFound ""
          (compute.Project.Quotas (project tq)) q)
       (projectQuotaEvents fromProject toProjectFound
          (compute.Project.Quotas (project tq)) q).
Proof.
  unfold projectQuotaBody, quotaIssues, projectQuotaEvents. simpl.
  intros st. unfold bind at 1. simpl. unfold ret at 1.
  destruct (findQuota _ _) as [q'|].
  - destruct (float64_ne _ _).
    + apply (adds_seq (adds_log_Printf _ _) (adds_append_issue _)).
    + apply adds_ret.
  - apply adds_log_Printf.
Qed.

Lemma projectPass_adds fq tq :
  adds (projectPass fromProject toProjectFound (Some fq) (Some tq))
       (flat_map (quotaIssues fromProject toProjectFound ""
                    (compute.Project.Quotas (project tq)))
                 (compute.Project.Quotas (project fq)))
       (flat_map (projectQuotaEvents fromProject toProjectFound
                    (compute.Project.Quotas (project tq)))
                 (compute.Project.Quotas (project fq))).
Proof.
  intros st. unfold projectPass. simpl. unfold bind at 1, ret at 1.
  apply adds_range. intros q _. apply projectQuotaBody_adds.
Qed.

Lemma regionQuotaBody_adds r r' q :
  adds (regionQuotaBody fromProject toProjectFound r r' q)
       (quotaIssues fromProject toProjectFound (compute.Region.Name r)
          (compute.Region.Quotas r') q)
       (regionQuotaEvents fromProject toProjectFound r r' q).
Proof.
  unfold regionQuotaBody, quotaIssues, regionQuotaEvents. simpl.
  destruct (findQuota _ _) as [q'|].
  - destruct (float64_ne _ _).
    + apply (adds_seq (adds_log_Printf _ _) (adds_append_issue _)).
    + apply adds_ret.
  - apply adds_log_Printf.
Qed.

Lemma regionBody_adds tq trl r :
  regionList tq = Some trl ->
  adds (regionBody fromProject toProjectFound (Some tq) r)
       (regionIssues fromProject toProjectFound (compute.RegionList.Items trl) r)
       (regionEvents fromProject toProjectFound (compute.RegionList.Items trl) r).
Proof.
  intros Htrl st. unfold regionBody, regionIssues, regionEvents. simpl.
  unfold bind at 1, ret at 1. rewrite Htrl. simpl. unfold bind at 1, ret at 1.
  destruct (findRegion _ _) as [r'|].
  - apply adds_range. intros q _. apply regionQuotaBody_adds.
  - apply adds_log_Printf.
Qed.

Lemma regionPass_adds fq tq frl trl :
  regionList fq = Some frl -> regionList tq = Some trl ->
  adds (regionPass fromProject toProjectFound (Some fq) (Some tq))
       (flat_map (regionIssues fromProject toProjectFound
                    (compute.RegionList.Items trl))
                 (compute.RegionList.Items frl))
       (flat_map (regionEvents fromProject toProjectFound
                    (compute.RegionList.Items trl))
                 (compute.RegionList.Items frl)).
Proof.
  intros Hfrl Htrl st. unfold regionPass. simpl.
  unfold bind at 1, ret at 1. rewrite Hfrl. simpl. unfold bind at 1, ret at 1.
  apply adds_range. intros r _. now apply regionBody_adds.
Qed.

(** A matched pair whose two region lists were fetched: the comparison
    returns, and what it adds is the project pass followed by the regions in
    the order of the from side. *)
Lemma diff_adds fq tq frl trl :
  regionList fq = Some frl -> regionList tq = Some trl ->
  adds (diff fromProject toProjectFound (Some fq) (Some tq))
       (flat_map (quotaIssues fromProject toProjectFound ""
                    (compute.Project.Quotas (project tq)))
                 (compute.Project.Quotas (project fq))
        ++ flat_map (regionIssues fromProject toProjectFound
                       (compute.RegionList.Items trl))
                    (compute.RegionList.Items frl))
       (flat_map (projectQuotaEvents fromProject toProjectFound
                    (compute.Project.Quotas (project tq)))
                 (compute.Project.Quotas (project fq))
        ++ flat_map (regionEvents fromProject toProjectFound
                       (compute.RegionList.Items trl))
                    (compute.RegionList.Items frl)).
Proof.
  intros Hfrl Htrl. unfold diff.
  apply adds_seq.
  - apply projectPass_adds.
  - now apply regionPass_adds.
Qed.

(** Whatever the region lists are, the state after the comparison is the
    state before it extended by the project pass and then by the regions. *)
Lemma diff_state fq tq st :
  fst (diff fromProject toProjectFound (Some fq) (Some tq) st) =
  extend st
    (flat_map (quotaIssues fromProject toProjectFound ""
                 (compute.Project.Quotas (project tq)))
              (compute.Project.Quotas (project fq))
     ++ regionPassIssues fromProject toProjectFound fq tq)
    (flat_map (projectQuotaEvents fromProject toProjectFound
                 (compute.Project.Quotas (project tq)))
              (compute.Project.Quotas (project fq))
     ++ regionPassEvents fromProject toProjectFound fq tq).
Proof.
  unfold regionPassIssues, regionPassEvents.
  destruct (regionList fq) as [frl|] eqn:Hfrl.
  - destruct (regionList tq) as [trl|] eqn:Htrl.
    + now rewrite (diff_adds _ _ Hfrl Htrl).
    + unfold diff, bind at 1. rewrite projectPass_adds.
      rewrite !app_nil_r. unfold regionPass. simpl.
      unfold bind at 1, ret at 1. rewrite Hfrl. simpl. unfold bind at 1, ret at 1.
      destruct (compute.RegionList.Items frl) as [|r rs]; simpl.
      * reflexivity.
      * unfold bind at 1, regionBody. simpl. unfold bind at 1, ret at 1.
        rewrite Htrl. reflexivity.
  - unfold diff, bind at 1. rewrite projectPass_adds.
    rewrite !app_nil_r. unfold regionPass. simpl.
    unfold bind at 1, ret at 1. rewrite Hfrl. reflexivity.
Qed.

End PairRuns.

(** ** Lists and floats *)

Lemma find_first A (f : A -> bool) pre y post :
  (forall x, In x pre -> f x = false) -> f y = true ->
  find f (pre ++ y :: post) = Some y.
Proof.
  induction pre as [|x pre IH]; intros Hpre Hy; simpl.
  - now rewrite Hy.
  - rewrite (Hpre x) by now left.
    apply IH; [|assumption]. intros z Hz. apply Hpre. now right.
Qed.

Lemma find_unique A (key : A -> string) (l : list A) x :
  NoDup (map key l) -> In x l ->
  find (fun y => String.eqb (key y) (key x)) l = Some x.
Proof.
  induction l as [|y l IH]; intros Hnd Hin; simpl in *.
  - contradiction.
  - inversion Hnd as [|? ? Hy Hl]; subst.
    destruct Hin as [->|Hin].
    + now rewrite String.eqb_refl.
    + destruct (String.eqb_spec (key y) (key x)) as [E|_].
      * exfalso. apply Hy. rewrite E. now apply in_map.
      * now apply IH.
Qed.

Lemma find_absent A (key : A -> string) (l : list A) k :
  ~ In k (map key l) -> find (fun y => String.eqb (key y) k) l = None.
Proof.
  induction l as [|y l IH]; intros Hnot; simpl in *.
  - reflexivity.
  - destruct (String.eqb_spec (key y) k) as [E|_].
    + exfalso. apply Hnot. now left.
    + apply IH. intros H. apply Hnot. now right.
Qed.

Lemma find_present A (key : A -> string) (l : list A) k :
  In k (map key l) ->
  exists y, find (fun y => String.eqb (key y) k) l = Some y.
Proof.
  intros Hin. destruct (find _ l) as [y|] eqn:E.
  - now exists y.
  - exfalso. apply in_map_iff in Hin as (y & Hk & Hy).
    pose proof (find_none _ _ E _ Hy) as Hf. simpl in Hf.
    rewrite Hk, String.eqb_refl in Hf. discriminate.
Qed.

Lemma find_key A (key : A -> string) (l : list A) k y :
  find (fun y => String.eqb (key y) k) l = Some y -> In y l /\ key y = k.
Proof.
  intros E. apply find_some in E as [Hin Hk]. split; [assumption|].
  now apply String.eqb_eq.
Qed.

Lemma flat_map_nil A B (f : A -> list B) (l : list A) :
  (forall x, In x l -> f x = []) -> flat_map f l = [].
Proof.
  induction l as [|x l IH]; intros H; simpl.
  - reflexivity.
  - rewrite (H x) by now left. apply IH. intros y Hy. apply H. now right.
Qed.

Lemma flat_map_single A B (key : A -> string) (f : A -> list B) (l : list A) x0 :
  NoDup (map key l) -> In x0 l ->
  (forall x, In x l -> key x <> key x0 -> f x = []) ->
  flat_map f l = f x0.
Proof.
  induction l as [|x l IH]; intros Hnd Hin Hother; simpl in *.
  - contradiction.
  - inversion Hnd as [|? ? Hx Hl]; subst.
    destruct Hin as [->|Hin].
    + rewrite flat_map_nil; [now rewrite app_nil_r|].
      intros y Hy. apply Hother; [now right|].
      intros E. apply Hx. rewrite <- E. now apply in_map.
    + rewrite (Hother x); [simpl; apply IH; auto|now left|].
      intros E. apply Hx. rewrite E. now apply in_map.
Qed.

(** [==] on float64 is symmetric. *)
Lemma float64_eq_sym a b : float64_eq a b = float64_eq b a.
Proof.
  unfold float64_eq, SFeqb, SFcompare.
  destruct a as [s|s| |s m e], b as [s'|s'| |s' m' e'];
    try destruct s; try destruct s'; try reflexivity;
    change IntDef.Z.compare with Z.compare;
    change (PosDef.Pos.compare_cont Eq) with Pos.compare;
    rewrite (Z.compare_antisym e e'), (Pos.compare_antisym m m');
    destruct (e ?= e')%Z; simpl; try reflexivity;
    now destruct (m ?= m')%positive.
Qed.

Lemma float64_ne_eq a b : float64_ne a b = negb (float64_eq b a).
Proof. unfold float64_ne. fold (float64_eq a b). now rewrite float64_eq_sym. Qed.

(** ** What a quota entry contributes *)

Section ContributionFacts.

Variable fromProject toProjectFound : cloudresourcemanager.Project.

(** An issue comes from an entry found on the to side, with limits that are
    not [==]; it records the metric and the two limits as they are. *)
Lemma quotaIssues_inv regionName toQuotas q i :
  In i (quotaIssues fromProject toProjectFound regionName toQuotas q) ->
  exists q', In q' toQuotas /\ compute.Metric q' = compute.Metric q /\
    float64_ne (compute.Limit q') (compute.Limit q) = true /\
    i = {| fromProjectId := cloudresourcemanager.Name fromProject;
           toProjectId := cloudresourcemanager.Name toProjectFound;
           region := regionName;
           metric := compute.Metric q;
           fromLimit := compute.Limit q;
           toLimit := compute.Limit q' |}.
Proof.
  unfold quotaIssues, findQuota.
  destruct (find _ toQuotas) as [q'|] eqn:E; [|intros []].
  apply find_key in E as [Hin Hm].
  destruct (float64_ne _ _) eqn:Hne; [|intros []].
  intros [<-|[]]. exists q'. auto.
Qed.

Lemma quotaIssues_agree regionName toQuotas q :
  (forall q', In q' toQuotas -> compute.Metric q = compute.Metric q' ->
     float64_eq (compute.Limit q) (compute.Limit q') = true) ->
  quotaIssues fromProject toProjectFound regionName toQuotas q = [].
Proof.
  intros H. unfold quotaIssues, findQuota.
  destruct (find _ toQuotas) as [q'|] eqn:E; [|reflexivity].
  apply find_key in E as [Hin Hm].
  now rewrite float64_ne_eq, (H q' Hin (eq_sym Hm)).
Qed.

Lemma quotaIssues_differ regionName toQuotas q q' :
  NoDup (metrics toQuotas) -> In q' toQuotas ->
  compute.Metric q = compute.Metric q' ->
  float64_eq (compute.Limit q) (compute.Limit q') = false ->
  quotaIssues fromProject toProjectFound regionName toQuotas q =
  [ {| fromProjectId := cloudresourcemanager.Name fromProject;
       toProjectId := cloudresourcemanager.Name toProjectFound;
       region := regionName;
       metric := compute.Metric q;
       fromLimit := compute.Limit q;
       toLimit := compute.Limit q' |} ].
Proof.
  intros Hnd Hin Hm Hne. unfold quotaIssues, findQuota.
  rewrite Hm, (find_unique compute.Metric _ _ Hnd Hin).
  now rewrite float64_ne_eq, Hne.
Qed.

(** Two lists whose common metrics have equal limits: no issue. *)
Lemma scope_issues_none regionName l l' :
  same_limits l l' ->
  flat_map (quotaIssues fromProject toProjectFound regionName l') l = [].
Proof.
  intros H. apply flat_map_nil. intros q Hq.
  apply quotaIssues_agree. intros q' Hq' Hm. now apply H.
Qed.

(** Two lists with unique metrics whose common metrics have equal limits but
    for one: that one issue. *)
Lemma scope_issues_single regionName l l' q0 q0' :
  NoDup (metrics l) -> NoDup (metrics l') ->
  In q0 l -> In q0' l' -> compute.Metric q0 = compute.Metric q0' ->
  float64_eq (compute.Limit q0) (compute.Limit q0') = false ->
  (forall q q', In q l -> In q' l' -> compute.Metric q = compute.Metric q' ->
     compute.Metric q <> compute.Metric q0 ->
     float64_eq (compute.Limit q) (compute.Limit q') = true) ->
  flat_map (quotaIssues fromProject toProjectFound regionName l') l =
  [ {| fromProjectId := cloudresourcemanager.Name fromProject;
       toProjectId := cloudresourcemanager.Name toProjectFound;
       region := regionName;
       metric := compute.Metric q0;
       fromLimit := compute.Limit q0;
       toLimit := compute.Limit q0' |} ].
Proof.
  intros Hnd Hnd' Hq0 Hq0' Hm Hne Hothers.
  rewrite (flat_map_single compute.Metric
             (quotaIssues fromProject toProjectFound regionName l') l q0 Hnd Hq0).
  - now apply quotaIssues_differ.
  - intros q Hq Hkey. apply quotaIssues_agree. intros q' Hq' Hmq.
    now apply Hothers.
Qed.

(** With the same metrics and equal limits nothing is logged either. *)
Lemma projectQuotaEvents_same l l' q :
  same_quotas l l' -> In q l ->
  projectQuotaEvents fromProject toProjectFound l' q = [].
Proof.
  intros [Hm Hl] Hq. unfold projectQuotaEvents, findQuota.
  destruct (find_present compute.Metric l' (compute.Metric q)) as [q' E].
  - apply Hm. now apply in_map.
  - rewrite E. apply find_key in E as [Hin Hk].
    now rewrite float64_ne_eq, (Hl q q' Hq Hin (eq_sym Hk)).
Qed.

Lemma regionQuotaEvents_same r r' q :
  same_quotas (compute.Region.Quotas r) (compute.Region.Quotas r') ->
  In q (compute.Region.Quotas r) ->
  regionQuotaEvents fromProject toProjectFound r r' q = [].
Proof.
  intros [Hm Hl] Hq. unfold regionQuotaEvents, findQuota.
  destruct (find_present compute.Metric (compute.Region.Quotas r')
              (compute.Metric q)) as [q' E].
  - apply Hm. now apply in_map.
  - rewrite E. apply find_key in E as [Hin Hk].
    now rewrite float64_ne_eq, (Hl q q' Hq Hin (eq_sym Hk)).
Qed.

Lemma regionIssues_same rs rs' r :
  same_regions rs rs' -> In r rs ->
  regionIssues fromProject toProjectFound rs' r = [].
Proof.
  intros [_ Hq] Hr. unfold regionIssues, findRegion.
  destruct (find _ rs') as [r'|] eqn:E; [|reflexivity].
  apply find_key in E as [Hin Hk].
  apply scope_issues_none. now apply (Hq r r' Hr Hin (eq_sym Hk)).
Qed.

Lemma regionEvents_same rs rs' r :
  same_regions rs rs' -> In r rs ->
  regionEvents fromProject toProjectFound rs' r = [].
Proof.
  intros [Hn Hq] Hr. unfold regionEvents, findRegion.
  destruct (find_present compute.Region.Name rs' (compute.Region.Name r))
    as [r' E].
  - apply Hn. now apply in_map.
  - rewrite E. apply find_key in E as [Hin Hk].
    apply flat_map_nil. intros q Hqin. apply regionQuotaEvents_same; [|assumption].
    now apply (Hq r r' Hr Hin (eq_sym Hk)).
Qed.

End ContributionFacts.

(** ** The comparison of a matched pair *)

(** C5: two snapshots with the same metrics and the same limits, for the
    project and in every region, are compared without any Discrepancy being
    produced: the issue list (and the log) are left as they were, and with
    both region lists at hand the comparison returns.  The limits are the
    same in the sense of [==] on float64. *)
Theorem diff_identical_snapshots
  (fromProject toProjectFound : cloudresourcemanager.Project)
  (fq tq : Quotas) (st : state) :
  same_quotas (compute.Project.Quotas (project fq))
              (compute.Project.Quotas (project tq)) ->
  (forall frl trl, regionList fq = Some frl -> regionList tq = Some trl ->
     same_regions (compute.RegionList.Items frl) (compute.RegionList.Items trl)) ->
  fst (diff fromProject toProjectFound (Some fq) (Some tq) st) = st /\
  (regionList fq <> None -> regionList tq <> None ->
   diff fromProject toProjectFound (Some fq) (Some tq) st = (st, Return tt)).
Proof.
  intros Hp Hr.
  assert (Hfst : fst (diff fromProject toProjectFound (Some fq) (Some tq) st) = st).
  { rewrite diff_state.
    rewrite (scope_issues_none _ _ _ (proj2 Hp)).
    rewrite (flat_map_nil (projectQuotaEvents _ _ _)).
    2:{ intros q Hin.
        now apply projectQuotaEvents_same with (l := compute.Project.Quotas (project fq)). }
    unfold regionPassIssues, regionPassEvents.
    destruct (regionList fq) as [frl|]; [|apply extend_nil].
    destruct (regionList tq) as [trl|]; [|apply extend_nil].
    specialize (Hr frl trl eq_refl eq_refl).
    rewrite (flat_map_nil (regionIssues _ _ _)).
    2:{ intros r Hin.
        now apply regionIssues_same with (rs := compute.RegionList.Items frl). }
    rewrite (flat_map_nil (regionEvents _ _ _)).
    2:{ intros r Hin.
        now apply regionEvents_same with (rs := compute.RegionList.Items frl). }
    apply extend_nil. }
  split; [assumption|].
  intros Hfrl Htrl.
  destruct (regionList fq) as [frl|] eqn:Efrl; [|now elim Hfrl].
  destruct (regionList tq) as [trl|] eqn:Etrl; [|now elim Htrl].
  rewrite (diff_adds fromProject toProjectFound _ _ Efrl Etrl) in Hfst |- *.
  simpl in Hfst. now rewrite Hfst.
Qed.

Lemma diff_identical_snapshots_witness :
  diff Demo.dev_billing Demo.staging_billing
       (Some Scenario.dev_snapshot) (Some Scenario.staging_snapshot) initial
  = (initial, Return tt).
Proof.
  apply (@diff_identical_snapshots Demo.dev_billing Demo.staging_billing
           Scenario.dev_snapshot Scenario.staging_snapshot initial).
  - split.
    + intros m. simpl. tauto.
    + intros q q' Hq Hq' Hm. simpl in Hq, Hq'. in_cases;
        try discriminate Hm; reflexivity.
  - intros frl trl Hfrl Htrl.
    injection Hfrl as <-. injection Htrl as <-. split.
    + intros n. simpl. tauto.
    + intros r r' Hr Hr' Hn. simpl in Hr, Hr'. in_cases;
        try discriminate Hn; (split;
        [ intros m; simpl; tauto
        | intros q q' Hq Hq' Hm; simpl in Hq, Hq'; in_cases;
          try discriminate Hm; reflexivity ]).
  - discriminate.
  - discriminate.
Defined.



(** One list of from entries compared against one list of to entries, as
    both passes do: a metric the to list lacks is never the metric of an
    issue, and every issue has the given region and a metric of both lists. *)
Lemma quotaIssues_both_sides
  (fromProject toProjectFound : cloudresourcemanager.Project)
  (regionName : string) (l l' : list compute.Quota) (i : Issue) :
  In i (flat_map (quotaIssues fromProject toProjectFound regionName l') l) ->
  region i = regionName /\ In (metric i) (metrics l) /\ In (metric i) (metrics l').
Proof.
  intros Hi. apply in_flat_map in Hi as (q & Hq & Hi).
  apply quotaIssues_inv in Hi as (q' & Hq' & Hm & _ & ->). simpl.
  split; [reflexivity|]. split.
  - unfold metrics. now apply in_map.
  - rewrite <- Hm. unfold metrics. now apply in_map.
Qed.


(** C4: two snapshots with unique metrics and region names whose limits are
    [==] wherever both hold a metric, but for one metric of one scope (the
    project, or a region) where they are not: the comparison returns with
    exactly one Discrepancy added, which carries that metric, that scope and
    the two limits as they are.  Any two limits that are not [==] count,
    however close. *)
Theorem diff_single_difference
  (fromProject toProjectFound : cloudresourcemanager.Project)
  (fq tq : Quotas) (frl trl : compute.RegionList.t)
  (s0 : scope) (q0 q0' : compute.Quota) (st : state) :
  regionList fq = Some frl -> regionList tq = Some trl ->
  unique (project fq) frl -> unique (project tq) trl ->
  In q0 (quotasAt (project fq) frl s0) ->
  In q0' (quotasAt (project tq) trl s0) ->
  compute.Metric q0 = compute.Metric q0' ->
  float64_eq (compute.Limit q0) (compute.Limit q0') = false ->
  (forall s q q',
     In q (quotasAt (project fq) frl s) -> In q' (quotasAt (project tq) trl s) ->
     compute.Metric q = compute.Metric q' ->
     (s, compute.Metric q) <> (s0, compute.Metric q0) ->
     float64_eq (compute.Limit q) (compute.Limit q') = true) ->
  exists st' i,
    diff fromProject toProjectFound (Some fq) (Some tq) st = (st', Return tt) /\
    issues st' = issues st ++ [i] /\
    region i = scopeName s0 /\
    metric i = compute.Metric q0 /\
    fromLimit i = compute.Limit q0 /\
    toLimit i = compute.Limit q0'.
Proof.
  intros Hfrl Htrl [Ufp Ufn Ufr] [Utp Utn Utr] Hq0 Hq0' Hm Hne Hothers.
  rewrite (diff_adds fromProject toProjectFound _ _ Hfrl Htrl).
  (* every from-region sits at the scope of its name *)
  assert (Hat : forall r, In r (compute.RegionList.Items frl) ->
            quotasAt (project fq) frl (Some (compute.Region.Name r))
            = compute.Region.Quotas r).
  { intros r Hr. simpl. unfold findRegion.
    now rewrite (find_unique compute.Region.Name _ _ Ufn Hr). }
  (* a from-region other than the one of [s0] adds nothing *)
  assert (Hquiet : forall r, In r (compute.RegionList.Items frl) ->
            Some (compute.Region.Name r) <> s0 ->
            regionIssues fromProject toProjectFound
              (compute.RegionList.Items trl) r = []).
  { intros r Hr Hs. unfold regionIssues.
    destruct (findRegion _ _) as [r'|] eqn:Hfind; [|reflexivity].
    apply scope_issues_none. intros q q' Hq Hq' Hmq.
    apply (Hothers (Some (compute.Region.Name r))).
    - now rewrite Hat.
    - simpl. now rewrite Hfind.
    - assumption.
    - intros E. apply Hs. now inversion E. }
  destruct s0 as [n|]; simpl in Hq0, Hq0'.
  - (* the difference is in region [n] *)
    destruct (findRegion n (compute.RegionList.Items frl)) as [r0|] eqn:Hr0;
      [|destruct Hq0].
    destruct (findRegion n (compute.RegionList.Items trl)) as [r0'|] eqn:Hr0';
      [|destruct Hq0'].
    pose proof (find_key _ _ _ Hr0) as [Hin0 Hn0].
    pose proof (find_key _ _ _ Hr0') as [Hin0' Hn0'].
    rewrite scope_issues_none.
    2:{ intros q q' Hq Hq' Hmq. apply (Hothers None); try assumption. discriminate. }
    rewrite (flat_map_single compute.Region.Name
               (regionIssues fromProject toProjectFound (compute.RegionList.Items trl))
               _ r0 Ufn Hin0).
    2:{ intros r Hr Hname. apply Hquiet; [assumption|].
        intros E. apply Hname. inversion E. now rewrite Hn0. }
    unfold regionIssues. rewrite Hn0, Hr0'.
    rewrite (scope_issues_single fromProject toProjectFound n
               (compute.Region.Quotas r0) (compute.Region.Quotas r0') q0 q0'
               (Ufr _ Hin0) (Utr _ Hin0') Hq0 Hq0' Hm Hne).
    2:{ intros q q' Hq Hq' Hmq Hdiff. apply (Hothers (Some n)).
        - simpl. now rewrite Hr0.
        - simpl. now rewrite Hr0'.
        - assumption.
        - intros E. apply Hdiff. now inversion E. }
    eexists. eexists. split; [reflexivity|]. simpl. auto.
  - (* the difference is in the project list *)
    rewrite (scope_issues_single fromProject toProjectFound ""
               _ _ q0 q0' Ufp Utp Hq0 Hq0' Hm Hne).
    2:{ intros q q' Hq Hq' Hmq Hdiff. apply (Hothers None); try assumption.
        intros E. apply Hdiff. now inversion E. }
    rewrite (flat_map_nil (regionIssues fromProject toProjectFound
                             (compute.RegionList.Items trl))).
    2:{ intros r Hr. apply Hquiet; [assumption|discriminate]. }
    eexists. eexists. split; [reflexivity|]. simpl. auto.
Qed.

Lemma diff_single_difference_witness :
  exists st' i,
    diff Demo.dev_billing Demo.staging_billing
         (Some Scenario.dev_snapshot) (Some Scenario.staging_snapshot_more_disks)
         initial
      = (st', Return tt) /\
    issues st' = issues initial ++ [i] /\
    region i = "us-east1" /\
    metric i = "DISKS_TOTAL_GB" /\
    fromLimit i = float64_of_Z 500 /\
    toLimit i = float64_of_Z 1000.
Proof.
  apply (@diff_single_difference Demo.dev_billing Demo.staging_billing
           Scenario.dev_snapshot Scenario.staging_snapshot_more_disks
           Scenario.dev_regions Scenario.staging_regions_more_disks
           (Some "us-east1") (Demo.quota "DISKS_TOTAL_GB" 500)
           (Demo.quota "DISKS_TOTAL_GB" 1000) initial).
  - reflexivity.
  - reflexivity.
  - constructor; simpl.
    + no_dup.
    + no_dup.
    + intros r Hr. in_cases; simpl; no_dup.
  - constructor; simpl.
    + no_dup.
    + no_dup.
    + intros r Hr. in_cases; simpl; no_dup.
  - simpl. auto.
  - simpl. auto.
  - reflexivity.
  - reflexivity.
  - intros s q q' Hq Hq' Hm Hs.
    destruct s as [n|].
    + revert Hq Hq'. cbn -[String.eqb].
      destruct (String.eqb_spec "us-east1" n) as [E1|Hn1];
      destruct (String.eqb_spec "europe-west1" n) as [E2|Hn2];
        try (rewrite <- E1 in E2; discriminate E2);
        simpl; intros Hq Hq'; in_cases;
        try discriminate Hm; try reflexivity.
      now elim Hs.
    + simpl in Hq, Hq'. in_cases; try discriminate Hm; reflexivity.
Defined.

(** Whatever the comparison adds names the pair by the [Name] fields of the
    two projects. *)
Lemma diff_issue_names
  (fromProject toProjectFound : cloudresourcemanager.Project)
  (fq tq : Quotas) (st : state) :
  exists iss,
    issues (fst (diff fromProject toProjectFound (Some fq) (Some tq) st))
      = issues st ++ iss /\
    forall i, In i iss ->
      fromProjectId i = cloudresourcemanager.Name fromProject /\
      toProjectId i = cloudresourcemanager.Name toProjectFound.
Proof.
  rewrite diff_state. simpl. eexists. split; [reflexivity|].
  intros i Hi. apply in_app_or in Hi as [Hi|Hi].
  - apply in_flat_map in Hi as (q & _ & Hi).
    now apply quotaIssues_inv in Hi as (q' & _ & _ & _ & ->).
  - unfold regionPassIssues in Hi.
    destruct (regionList fq) as [frl|]; [|destruct Hi].
    destruct (regionList tq) as [trl|]; [|destruct Hi].
    apply in_flat_map in Hi as (r & _ & Hi). unfold regionIssues in Hi.
    destruct (findRegion _ _) as [r'|]; [|destruct Hi].
    apply in_flat_map in Hi as (q & _ & Hi).
    now apply quotaIssues_inv in Hi as (q' & _ & _ & _ & ->).
Qed.

(** ** Fetching the quotas *)

Section Fetch.

Variable W : World.

(** With a client and a service at hand, [GetQuotas] returns without an
    error; it has asked for the project, and for the regions only if the
    project could be read. *)
Lemma GetQuotas_returns (id : string) (st : state) :
  google_DefaultClient_Do W (trace st) = None ->
  compute_NewService_Do W (trace st ++ [Api google_DefaultClient]) = None ->
  exists st1 fpq es,
    GetQuotas W id st = (st1, Return (None, fpq)) /\
    issues st1 = issues st /\
    trace st1 = trace st ++ Api google_DefaultClient :: Api compute_NewService
                         :: Api (Projects_Get id) :: es /\
    (forall c, In (Api c) es -> c = Regions_List id).
Proof.
  intros Hc Hs. unfold GetQuotas, bind, api, log_Printf, emit, ret. simpl.
  rewrite Hc. simpl. rewrite Hs. simpl.
  destruct (Projects_Get_Do W _ id) as [err|p]; simpl.
  - eexists. eexists. eexists. split; [reflexivity|]. simpl.
    split; [reflexivity|]. split.
    + rewrite <- !app_assoc. simpl. reflexivity.
    + intros c [H|[]]. discriminate H.
  - destruct (Regions_List_Do W _ id) as [err|rl]; simpl.
    + eexists. eexists. eexists. split; [reflexivity|]. simpl.
      split; [reflexivity|]. split.
      * rewrite <- !app_assoc. simpl. reflexivity.
      * intros c [H|[H|[]]]; [now inversion H|discriminate H].
    + eexists. eexists. eexists. split; [reflexivity|]. simpl.
      split; [reflexivity|]. split.
      * rewrite <- !app_assoc. simpl. reflexivity.
      * intros c [H|[]]. now inversion H.
Qed.

(** A region query that fails leaves the snapshot with a nil region list,
    and [GetQuotas] still returns it. *)
Lemma GetQuotas_regions_unreadable (id : string) (st : state) p err :
  google_DefaultClient_Do W (trace st) = None ->
  compute_NewService_Do W (trace st ++ [Api google_DefaultClient]) = None ->
  Projects_Get_Do W (trace st ++ [Api google_DefaultClient; Api compute_NewService]) id
    = inr p ->
  Regions_List_Do W
    (trace st ++ [Api google_DefaultClient; Api compute_NewService;
                  Api (Projects_Get id)]) id = inl err ->
  snd (GetQuotas W id st)
  = Return (None, Some {| projectId := id; project := p; regionList := None |}).
Proof.
  intros Hc Hs Hp Hr. unfold GetQuotas, bind, api, log_Printf, emit, ret. simpl.
  rewrite Hc. simpl. rewrite Hs. simpl.
  rewrite <- !app_assoc. simpl. rewrite Hp. simpl.
  rewrite <- !app_assoc. simpl. rewrite Hr. reflexivity.
Qed.

(** A project query that fails is logged, and [GetQuotas] returns neither an
    error nor a snapshot. *)
Lemma GetQuotas_project_unreadable (id : string) (st : state) err :
  google_DefaultClient_Do W (trace st) = None ->
  compute_NewService_Do W (trace st ++ [Api google_DefaultClient]) = None ->
  Projects_Get_Do W (trace st ++ [Api google_DefaultClient; Api compute_NewService]) id
    = inl err ->
  snd (GetQuotas W id st) = Return (None, None).
Proof.
  intros Hc Hs Hp. unfold GetQuotas, bind, api, log_Printf, emit, ret. simpl.
  rewrite Hc. simpl. rewrite Hs. simpl.
  rewrite <- !app_assoc. simpl. rewrite Hp. reflexivity.
Qed.

End Fetch.

(** ** Following a nil pointer *)

Section Nil.

Variable fromProject toProjectFound : cloudresourcemanager.Project.

Lemma projectPass_nil_from tq st :
  projectPass fromProject toProjectFound None tq st
  = (st, Panic NilPointerDereference).
Proof. reflexivity. Qed.

Lemma projectPass_nil_to fq st :
  compute.Project.Quotas (project fq) <> [] ->
  projectPass fromProject toProjectFound (Some fq) None st
  = (st, Panic NilPointerDereference).
Proof.
  intros Hne. unfold projectPass. simpl. unfold bind at 1, ret at 1.
  destruct (compute.Project.Quotas (project fq)) as [|q l]; [now elim Hne|].
  reflexivity.
Qed.

Lemma regionPass_nil_regions fq tq st :
  regionList fq = None ->
  regionPass fromProject toProjectFound (Some fq) tq st
  = (st, Panic NilPointerDereference).
Proof.
  intros Hnil. unfold regionPass. simpl. unfold bind at 1, ret at 1.
  now rewrite Hnil.
Qed.

(** A from side without any entry gives the loops nothing to do, and the nil
    to side is never followed. *)
Lemma diff_nil_to_unnoticed fq frl st :
  compute.Project.Quotas (project fq) = [] ->
  regionList fq = Some frl -> compute.RegionList.Items frl = [] ->
  diff fromProject toProjectFound (Some fq) None st = (st, Return tt).
Proof.
  intros Hq Hfrl Hitems. unfold diff, projectPass, regionPass. simpl.
  unfold bind, ret. simpl. rewrite Hq. simpl. rewrite Hfrl. simpl.
  now rewrite Hitems.
Qed.

End Nil.

(** ** One from-project *)

Section OneProject.

Variable W : World.
Variable flags : Flags.
Variable toProjects : list cloudresourcemanager.Project.
Variable fromProject : cloudresourcemanager.Project.

(** A from-project whose id the source pattern does not match: the capture
    is read from the nil slice. *)
Lemma unmatched_id_panics r st :
  regexp_MustCompile W (regexFrom flags) = Some r ->
  regexp.FindStringSubmatch r (cloudresourcemanager.ProjectId fromProject) = [] ->
  fromProjectBody W flags toProjects fromProject st
  = (st, Panic (IndexOutOfRange 1 0)).
Proof.
  intros Hr Hnil. unfold fromProjectBody, MustCompile. rewrite Hr.
  unfold bind at 1, ret at 1. now rewrite Hnil.
Qed.

Variables (r r1 : regexp.Regexp) (projectName : string).
Hypothesis Hr : regexp_MustCompile W (regexFrom flags) = Some r.
Hypothesis Hname :
  nth_error (regexp.FindStringSubmatch r (cloudresourcemanager.ProjectId fromProject)) 1
  = Some projectName.
Hypothesis Hr1 :
  regexp_MustCompile W (fmt_Sprintf W (regexTo flags) projectName) = Some r1.

(** The from side is fetched first; what follows depends on the search. *)
Lemma fromProjectBody_after_fetch st st1 fromProjectQuotas :
  GetQuotas W (cloudresourcemanager.ProjectId fromProject) st
    = (st1, Return (None, fromProjectQuotas)) ->
  fromProjectBody W flags toProjects fromProject st =
  match findProject r1 toProjects with
  | None => (st1, Return tt)
  | Some toProjectFound =>
    foundBody W fromProject fromProjectQuotas toProjectFound st1
  end.
Proof.
  intros Hget. unfold fromProjectBody, MustCompile, index. rewrite Hr.
  unfold bind at 1, ret at 1. rewrite Hname.
  unfold bind at 1, ret at 1. rewrite Hr1.
  unfold bind at 1, ret at 1. unfold bind at 1. rewrite Hget.
  now destruct (findProject r1 toProjects).
Qed.

(** The quotas of the from side could not be read and a to-project is found:
    the run ends there, by the error of the second fetch or by the nil
    pointer the comparison follows. *)
Lemma from_fetch_failure_aborts st st1 toProjectFound :
  GetQuotas W (cloudresourcemanager.ProjectId fromProject) st
    = (st1, Return (None, None)) ->
  findProject r1 toProjects = Some toProjectFound ->
  aborted (snd (fromProjectBody W flags toProjects fromProject st)) = true.
Proof.
  intros Hget Hfound. rewrite (fromProjectBody_after_fetch _ Hget), Hfound.
  unfold foundBody, bind.
  destruct (GetQuotas W (cloudresourcemanager.ProjectId toProjectFound) st1)
    as [st2 [[[err|] tpq]| |p]]; reflexivity.
Qed.

(** The quotas of the to side could not be read: the comparison follows the
    nil pointer as soon as the from side has a project quota to look up. *)
Lemma to_fetch_failure_panics st st1 st2 fq toProjectFound :
  GetQuotas W (cloudresourcemanager.ProjectId fromProject) st
    = (st1, Return (None, Some fq)) ->
  findProject r1 toProjects = Some toProjectFound ->
  GetQuotas W (cloudresourcemanager.ProjectId toProjectFound) st1
    = (st2, Return (None, None)) ->
  compute.Project.Quotas (project fq) <> [] ->
  fromProjectBody W flags toProjects fromProject st
  = (st2, Panic NilPointerDereference).
Proof.
  intros Hget Hfound Hget' Hne.
  rewrite (fromProjectBody_after_fetch _ Hget), Hfound.
  unfold foundBody, bind at 1. rewrite Hget'.
  unfold diff, bind at 1. now rewrite projectPass_nil_to.
Qed.

End OneProject.

(** C7 (amended): for a from-project whose id yields a name and whose own
    fetch does not end the run, the to-project it is compared with is the
    first one, in the order of the list, whose id satisfies the target
    pattern built from that name.  If none does, the from-project is passed
    over without a log line: the state is the one the from-side fetch left,
    and the loop goes on with the next from-project. *)
Theorem first_match_or_silent_skip
  (W : World) (flags : Flags)
  (toProjects : list cloudresourcemanager.Project)
  (fromProject : cloudresourcemanager.Project)
  (r r1 : regexp.Regexp) (projectName : string)
  (fromProjectQuotas : option Quotas) (st st1 : state) :
  regexp_MustCompile W (regexFrom flags) = Some r ->
  nth_error (regexp.FindStringSubmatch r (cloudresourcemanager.ProjectId fromProject)) 1
    = Some projectName ->
  regexp_MustCompile W (fmt_Sprintf W (regexTo flags) projectName) = Some r1 ->
  GetQuotas W (cloudresourcemanager.ProjectId fromProject) st
    = (st1, Return (None, fromProjectQuotas)) ->
  (forall pre p post,
     toProjects = pre ++ p :: post ->
     (forall x, In x pre ->
        regexp.MatchString r1 (cloudresourcemanager.ProjectId x) = false) ->
     regexp.MatchString r1 (cloudresourcemanager.ProjectId p) = true ->
     fromProjectBody W flags toProjects fromProject st
     = foundBody W fromProject fromProjectQuotas p st1) /\
  ((forall x, In x toProjects ->
      regexp.MatchString r1 (cloudresourcemanager.ProjectId x) = false) ->
   fromProjectBody W flags toProjects fromProject st = (st1, Return tt) /\
   forall rest,
     range (fromProject :: rest) (fromProjectBody W flags toProjects) st
     = range rest (fromProjectBody W flags toProjects) st1).
Proof.
  intros Hr Hname Hr1 Hget.
  pose proof (@fromProjectBody_after_fetch W flags toProjects fromProject
                r r1 projectName Hr Hname Hr1 st st1 fromProjectQuotas Hget)
    as Hbody.
  split.
  - intros pre p post -> Hpre Hp. rewrite Hbody. unfold findProject.
    now rewrite (find_first _ pre p post Hpre Hp).
  - intros Hnone.
    assert (Hfind : findProject r1 toProjects = None).
    { unfold findProject. destruct (find _ toProjects) as [p|] eqn:E; [|reflexivity].
      apply find_some in E as [Hin Hp]. now rewrite (Hnone p Hin) in Hp. }
    rewrite Hfind in Hbody. split; [assumption|].
    intros rest. simpl. unfold bind at 1. now rewrite Hbody.
Qed.

(** C8 (amended): the quotas of a from-project are fetched before the
    to-projects are searched, whether or not one of them matches; only the
    fetch of the to side waits for the match.  With a client and a service
    at hand, the queries made for a from-project that has no match are those
    for the from-project itself. *)
Theorem from_side_fetched_before_search
  (W : World) (flags : Flags)
  (toProjects : list cloudresourcemanager.Project)
  (fromProject : cloudresourcemanager.Project)
  (r r1 : regexp.Regexp) (projectName : string) (st : state) :
  regexp_MustCompile W (regexFrom flags) = Some r ->
  nth_error (regexp.FindStringSubmatch r (cloudresourcemanager.ProjectId fromProject)) 1
    = Some projectName ->
  regexp_MustCompile W (fmt_Sprintf W (regexTo flags) projectName) = Some r1 ->
  google_DefaultClient_Do W (trace st) = None ->
  compute_NewService_Do W (trace st ++ [Api google_DefaultClient]) = None ->
  exists st1 fromProjectQuotas es,
    GetQuotas W (cloudresourcemanager.ProjectId fromProject) st
      = (st1, Return (None, fromProjectQuotas)) /\
    trace st1 = trace st ++ Api google_DefaultClient :: Api compute_NewService
                  :: Api (Projects_Get (cloudresourcemanager.ProjectId fromProject))
                  :: es /\
    (forall c, In (Api c) es ->
       c = Regions_List (cloudresourcemanager.ProjectId fromProject)) /\
    fromProjectBody W flags toProjects fromProject st =
    match findProject r1 toProjects with
    | None => (st1, Return tt)
    | Some toProjectFound =>
      foundBody W fromProject fromProjectQuotas toProjectFound st1
    end.
Proof.
  intros Hr Hname Hr1 Hc Hs.
  destruct (GetQuotas_returns W (cloudresourcemanager.ProjectId fromProject) st Hc Hs)
    as (st1 & fpq & es & Hget & _ & Htrace & Hes).
  exists st1, fpq, es. repeat split; try assumption.
  now apply (@fromProjectBody_after_fetch W flags toProjects fromProject
               r r1 projectName Hr Hname Hr1).
Qed.

(** ** Runs in the scenario clouds *)

Lemma first_match_or_silent_skip_witness :
  fromProjectBody (Demo.world Scenario.cloud_unmatched) Demo.flags
    [Demo.staging_web] Demo.dev_billing initial
  = (fst (GetQuotas (Demo.world Scenario.cloud_unmatched)
            "prj-dev-billing-ab12" initial),
     Return tt).
Proof.
  refine (proj1 (proj2 (@first_match_or_silent_skip
            (Demo.world Scenario.cloud_unmatched) Demo.flags
            [Demo.staging_web] Demo.dev_billing
            Scenario.source_pattern Scenario.billing_pattern "billing"
            (Some {| projectId := "prj-dev-billing-ab12";
                     project := Demo.quotas [Demo.quota "CPUS" 24];
                     regionList := Some (Demo.regions []) |})
            initial
            (fst (GetQuotas (Demo.world Scenario.cloud_unmatched)
                    "prj-dev-billing-ab12" initial))
            _ _ _ _) _)).
  - reflexivity.
  - reflexivity.
  - reflexivity.
  - reflexivity.
  - intros x Hx. simpl in Hx. in_cases. reflexivity.
Defined.

Lemma from_side_fetched_before_search_witness :
  exists st1 es,
    trace st1 = [Api google_DefaultClient; Api compute_NewService;
                 Api (Projects_Get "prj-dev-billing-ab12")] ++ es /\
    fromProjectBody (Demo.world Scenario.cloud_unmatched) Demo.flags
      [Demo.staging_web] Demo.dev_billing initial
    = (st1, Return tt).
Proof.
  destruct (@from_side_fetched_before_search
              (Demo.world Scenario.cloud_unmatched) Demo.flags
              [Demo.staging_web] Demo.dev_billing
              Scenario.source_pattern Scenario.billing_pattern
              "billing" initial)
    as (st1 & fpq & es & _ & Htrace & _ & Hbody).
  - reflexivity.
  - reflexivity.
  - reflexivity.
  - reflexivity.
  - reflexivity.
  - exists st1, es. split; [exact Htrace | exact Hbody].
Defined.

(** No staging project satisfies the billing pattern; the run returns, and
    its only log lines are the two project filters: nothing tells of the
    from-project that was passed over. *)
Lemma unmatched_project_skipped_without_notice :
  findProject Scenario.billing_pattern [Demo.staging_web] = None /\
  snd Scenario.run_unmatched = Return tt /\
  forall format args,
    In (Printf format args) (trace (fst Scenario.run_unmatched)) ->
    format = "Project filter: %v".
Proof.
  split; [reflexivity|]. split; [reflexivity|].
  intros format args H. only_format H.
Qed.

(** No staging project satisfies the billing pattern, and the quotas of the
    dev billing project were asked for all the same. *)
Lemma unmatched_project_is_fetched :
  findProject Scenario.billing_pattern [Demo.staging_web] = None /\
  In (Api (Projects_Get "prj-dev-billing-ab12"))
     (trace (fst Scenario.run_unmatched)).
Proof.
  split; [reflexivity|]. vm_compute. tauto.
Qed.

(** C1: the quotas of the to side of the first matched pair cannot be read.
    The query and its failure are in the trace, yet the run goes on to the
    second pair, reports its difference and ends with status 0. *)
Theorem to_fetch_failure_goes_unnoticed :
  findProject Scenario.billing_pattern [Demo.staging_billing; Demo.staging_web]
    = Some Demo.staging_billing /\
  In (Api (Projects_Get "prj-staging-billing-cd34"))
     (trace (fst Scenario.run_to_unreadable)) /\
  In (Printf "Failure when querying project quotas: %v"
        [AError "googleapi: Error 403: Forbidden"])
     (trace (fst Scenario.run_to_unreadable)) /\
  snd Scenario.run_to_unreadable = Return tt /\
  exit_status (snd Scenario.run_to_unreadable) = 0 /\
  map metric (issues (fst Scenario.run_to_unreadable)) = ["CPUS"] /\
  map fromProjectId (issues (fst Scenario.run_to_unreadable)) = ["Web (dev)"].
Proof.
  split; [reflexivity|]. vm_compute. repeat split; tauto.
Qed.

(** C2: the id of the first dev project is not matched by the source
    pattern.  The run ends in the index-out-of-range panic of the capture
    access; no log line names the project. *)
Theorem unmatched_id_index_out_of_range :
  regexp.FindStringSubmatch Scenario.source_pattern "legacy-tools" = [] /\
  snd Scenario.run_legacy = Panic (IndexOutOfRange 1 0) /\
  forall format args,
    In (Printf format args) (trace (fst Scenario.run_legacy)) ->
    format = "Project filter: %v".
Proof.
  split; [reflexivity|]. split; [reflexivity|].
  intros format args H. only_format H.
Qed.

(** C6: the region list of the dev billing project cannot be read.
    [GetQuotas] returns the snapshot with a nil region list, and the region
    loop of [main] follows the nil pointer: the run ends in a panic. *)
Theorem nil_region_list_is_followed :
  snd (GetQuotas (Demo.world Scenario.cloud_regions_unreadable)
         "prj-dev-billing-ab12" initial)
  = Return (None, Some {| projectId := "prj-dev-billing-ab12";
                          project := Demo.quotas [Demo.quota "CPUS" 24];
                          regionList := None |}) /\
  snd Scenario.run_regions_unreadable = Panic NilPointerDereference /\
  exit_status (snd Scenario.run_regions_unreadable) = 2.
Proof.
  repeat split; reflexivity.
Qed.

(** C9: the one Discrepancy of the run has the empty region of the project
    pass, and its two project fields hold the display names of the projects,
    not their ids. *)
Theorem issue_holds_display_names :
  snd Scenario.run_cpus = Return tt /\
  map region (issues (fst Scenario.run_cpus)) = [""] /\
  map fromProjectId (issues (fst Scenario.run_cpus)) = ["Billing (dev)"] /\
  map toProjectId (issues (fst Scenario.run_cpus)) = ["Billing (staging)"] /\
  cloudresourcemanager.ProjectId Demo.dev_billing = "prj-dev-billing-ab12" /\
  cloudresourcemanager.ProjectId Demo.staging_billing = "prj-staging-billing-cd34".
Proof.
  repeat split; reflexivity.
Qed.


(** ** More on fetching *)

(** Every way [GetQuotas] can end, with the state it leaves. *)
Lemma GetQuotas_cases (W : World) (id : string) (st : state) :
  exists es o,
    GetQuotas W id st
      = ({| issues := issues st;
            trace := trace st ++ Api google_DefaultClient :: es |}, o) /\
    ((exists err, es = [] /\
        o = Return (Some ("Error creating Google client: " ++ err)%string, None)) \/
     (exists err, es = [Api compute_NewService;
                        Printf "Failure when getting compute service: %v" [AError err]] /\
        o = Fatal) \/
     (exists err, es = [Api compute_NewService; Api (Projects_Get id);
                        Printf "Failure when querying project quotas: %v" [AError err]] /\
        o = Return (None, None)) \/
     (exists p err, es = [Api compute_NewService; Api (Projects_Get id);
                          Api (Regions_List id);
                          Printf "Failure when querying region quotas: %v" [AError err]] /\
        o = Return (None, Some {| projectId := id; project := p; regionList := None |})) \/
     (exists p rl, es = [Api compute_NewService; Api (Projects_Get id);
                         Api (Regions_List id)] /\
        o = Return (None, Some {| projectId := id; project := p; regionList := Some rl |}))).
Proof.
  unfold GetQuotas, bind, api, log_Fatalf, log_Printf, emit, exit1, ret, bind. simpl.
  destruct (google_DefaultClient_Do W (trace st)) as [err|]; simpl.
  { eexists. eexists. split; [reflexivity|]. left. now exists err. }
  destruct (compute_NewService_Do W _) as [err|]; simpl.
  { eexists. eexists. split; [rewrite <- !app_assoc; reflexivity|].
    right. left. now exists err. }
  destruct (Projects_Get_Do W _ id) as [err|p]; simpl.
  { eexists. eexists. split; [rewrite <- !app_assoc; reflexivity|].
    right. right. left. now exists err. }
  destruct (Regions_List_Do W _ id) as [err|rl]; simpl.
  { eexists. eexists. split; [rewrite <- !app_assoc; reflexivity|].
    right. right. right. left. now exists p, err. }
  eexists. eexists. split; [rewrite <- !app_assoc; reflexivity|].
  right. right. right. right. now exists p, rl.
Qed.

(** X1: whatever the APIs answer, [GetQuotas] leaves the issue list alone,
    only appends to the trace, never panics, asks about no other project
    than the one it was given, never returns an error together with a
    snapshot, and a snapshot it returns carries the id that was asked for and
    was preceded by both queries. *)
Theorem GetQuotas_shape (W : World) (id : string) (st : state) :
  exists es,
    issues (fst (GetQuotas W id st)) = issues st /\
    trace (fst (GetQuotas W id st)) = trace st ++ Api google_DefaultClient :: es /\
    (forall p, snd (GetQuotas W id st) <> Panic p) /\
    (forall c, In (Api c) es ->
       c = compute_NewService \/ c = Projects_Get id \/ c = Regions_List id) /\
    (forall err q, snd (GetQuotas W id st) = Return (err, q) ->
       (err <> None -> q = None /\ es = []) /\
       (forall s, q = Some s ->
          err = None /\ projectId s = id /\
          In (Api (Projects_Get id)) es /\ In (Api (Regions_List id)) es)).
Proof.
  destruct (GetQuotas_cases W id st) as (es & o & -> & Hcases). exists es. simpl.
  split; [reflexivity|]. split; [reflexivity|].
  destruct Hcases as [(e & -> & ->)|[(e & -> & ->)|[(e & -> & ->)|
                     [(p & e & -> & ->)|(p & rl & -> & ->)]]]];
    (split; [intros p0; discriminate|]);
    (split; [intros c Hc; simpl in Hc; in_cases; try discriminate Hc;
             try (injection Hc as <-); auto|]);
    intros err q Heq; try discriminate Heq; injection Heq as <- <-;
    (split; [intros Hne; try (now elim Hne); auto|]);
    intros s Hs; try discriminate Hs; injection Hs as <-; simpl; auto 10.
Qed.

(** Without a Google client [GetQuotas] hands back the wrapped error at
    once. *)
Lemma GetQuotas_without_client (W : World) (id : string) (st : state) err :
  google_DefaultClient_Do W (trace st) = Some err ->
  GetQuotas W id st
  = ({| issues := issues st; trace := trace st ++ [Api google_DefaultClient] |},
     Return (Some ("Error creating Google client: " ++ err)%string, None)).
Proof.
  intros Hc. unfold GetQuotas, bind, api, ret. simpl. now rewrite Hc.
Qed.

(** X2: when no Google client can be created for the fetch of a
    from-project, the run ends through [log.Fatalf] with status 1; the last
    log line is the "Error with project" line, with the id of the
    from-project and the wrapped error, and no quota query was made. *)
Theorem from_fetch_without_client_is_fatal
  (W : World) (flags : Flags)
  (toProjects : list cloudresourcemanager.Project)
  (fromProject : cloudresourcemanager.Project)
  (r r1 : regexp.Regexp) (projectName : string) (err : error) (st : state) :
  regexp_MustCompile W (regexFrom flags) = Some r ->
  nth_error (regexp.FindStringSubmatch r (cloudresourcemanager.ProjectId fromProject)) 1
    = Some projectName ->
  regexp_MustCompile W (fmt_Sprintf W (regexTo flags) projectName) = Some r1 ->
  google_DefaultClient_Do W (trace st) = Some err ->
  fromProjectBody W flags toProjects fromProject st
  = ({| issues := issues st;
        trace := trace st ++
          [Api google_DefaultClient;
           Printf "Error with project %s: %s"
             [AString (cloudresourcemanager.ProjectId fromProject);
              AError ("Error creating Google client: " ++ err)%string]] |},
     Fatal).
Proof.
  intros Hr Hname Hr1 Hc. unfold fromProjectBody, MustCompile, index. rewrite Hr.
  unfold bind at 1, ret at 1. rewrite Hname.
  unfold bind at 1, ret at 1. rewrite Hr1.
  unfold bind at 1, ret at 1. unfold bind at 1.
  rewrite (GetQuotas_without_client W _ st Hc).
  unfold log_Fatalf, bind, emit, exit1. simpl. now rewrite <- app_assoc.
Qed.

Lemma from_fetch_without_client_is_fatal_witness :
  snd (fromProjectBody Outage.no_credentials Demo.flags
         [Demo.staging_billing] Demo.dev_billing initial) = Fatal.
Proof.
  rewrite (@from_fetch_without_client_is_fatal Outage.no_credentials Demo.flags
             [Demo.staging_billing] Demo.dev_billing
             Scenario.source_pattern Scenario.billing_pattern "billing"
             "google: could not find default credentials" initial);
    reflexivity.
Defined.

(** X3: when no Google client can be created for the fetch of the to side
    of a matched pair, the run ends through [log.Fatalf] as well, and the
    "Error with project" line names the from-project, not the to-project
    whose fetch failed. *)
Theorem to_fetch_without_client_names_from_project
  (W : World) (fromProject toProjectFound : cloudresourcemanager.Project)
  (fromProjectQuotas : option Quotas) (err : error) (st : state) :
  google_DefaultClient_Do W (trace st) = Some err ->
  foundBody W fromProject fromProjectQuotas toProjectFound st
  = ({| issues := issues st;
        trace := trace st ++
          [Api google_DefaultClient;
           Printf "Error with project %s: %s"
             [AString (cloudresourcemanager.ProjectId fromProject);
              AError ("Error creating Google client: " ++ err)%string]] |},
     Fatal).
Proof.
  intros Hc. unfold foundBody, bind at 1.
  rewrite (GetQuotas_without_client W _ st Hc).
  unfold log_Fatalf, bind, emit, exit1. simpl. now rewrite <- app_assoc.
Qed.

Lemma to_fetch_without_client_names_from_project_witness :
  In (Printf "Error with project %s: %s"
        [AString "prj-dev-billing-ab12";
         AError "Error creating Google client: google: could not find default credentials"])
     (trace (fst (foundBody Outage.no_credentials Demo.dev_billing None
                    Demo.staging_billing initial))).
Proof.
  rewrite (@to_fetch_without_client_names_from_project Outage.no_credentials
             Demo.dev_billing Demo.staging_billing None
             "google: could not find default credentials" initial eq_refl).
  simpl. right. left. reflexivity.
Defined.

(** ** Listing the projects *)

(** The two ways [GetProjects] goes: without a directory service it returns
    the error at once; with one it logs the filter, lists with it and returns
    the answer of the directory. *)
Lemma GetProjects_run (W : World) (query : string) (st : state) :
  let filter := ("lifecycleState:ACTIVE " ++ query)%string in
  let logged := trace st ++ [Api cloudresourcemanager_NewService;
                              Printf "Project filter: %v" [AString filter]] in
  match cloudresourcemanager_NewService_Do W (trace st) with
  | Some err =>
    GetProjects W query st
    = ({| issues := issues st;
          trace := trace st ++ [Api cloudresourcemanager_NewService] |},
       Return (inl err))
  | None =>
    GetProjects W query st
    = ({| issues := issues st; trace := logged ++ [Api (Projects_List filter)] |},
       Return (Projects_List_Do W logged filter))
  end.
Proof.
  intros filter logged. unfold GetProjects.
  change ("lifecycleState:ACTIVE" ++ " " ++ query)%string with filter.
  subst logged. clearbody filter.
  unfold bind, api, log_Printf, emit, ret. simpl.
  destruct (cloudresourcemanager_NewService_Do W (trace st)) as [err|]; simpl.
  - reflexivity.
  - rewrite <- !app_assoc. simpl.
    now destruct (Projects_List_Do W _ filter).
Qed.


(** ** The start of [main] *)

(** X5: when the from-projects cannot be listed the run ends through
    [log.Fatal] with status 1: the error is the last log line, the
    to-projects are not listed and no quota is fetched. *)
Theorem from_listing_failure_is_fatal
  (W : World) (flags : Flags) (st st1 : state) (err : error) :
  GetProjects W (from flags) st = (st1, Return (inl err)) ->
  main W flags st
  = ({| issues := []; trace := trace st1 ++ [Printf "%v" [AError err]] |}, Fatal).
Proof.
  intros Hget. unfold main, bind at 1. rewrite Hget.
  unfold bind, reset_issues, log_Fatal, emit, exit1. reflexivity.
Qed.

Lemma from_listing_failure_is_fatal_witness :
  main Outage.no_directory Demo.flags initial
  = ({| issues := [];
        trace := [Api cloudresourcemanager_NewService;
                  Printf "%v" [AError "google: could not find default credentials"]] |},
     Fatal).
Proof.
  apply (@from_listing_failure_is_fatal Outage.no_directory Demo.flags initial
           {| issues := []; trace := [Api cloudresourcemanager_NewService] |}
           "google: could not find default credentials").
  reflexivity.
Defined.

(** X6: when the to-projects cannot be listed the run ends through
    [log.Fatal] with status 1, however many from-projects were listed: none
    of them is looked at and no quota is fetched. *)
Theorem to_listing_failure_is_fatal
  (W : World) (flags : Flags) (st st1 st2 : state) (err : error)
  (fromProjects : list cloudresourcemanager.Project) :
  GetProjects W (from flags) st = (st1, Return (inr fromProjects)) ->
  GetProjects W (to flags) {| issues := []; trace := trace st1 |}
    = (st2, Return (inl err)) ->
  main W flags st
  = ({| issues := issues st2; trace := trace st2 ++ [Printf "%v" [AError err]] |},
     Fatal).
Proof.
  intros Hfrom Hto. unfold main, bind at 1. rewrite Hfrom.
  unfold bind at 1, reset_issues. unfold bind at 1. rewrite Hto.
  unfold log_Fatal, bind, emit, exit1. reflexivity.
Qed.

Lemma to_listing_failure_is_fatal_witness :
  snd (main Outage.staging_unlisted Demo.flags initial) = Fatal /\
  forall c, In (Api c) (trace (fst (main Outage.staging_unlisted Demo.flags initial))) ->
    c = cloudresourcemanager_NewService \/ exists f, c = Projects_List f.
Proof.
  rewrite (@to_listing_failure_is_fatal Outage.staging_unlisted Demo.flags initial
             (fst (GetProjects Outage.staging_unlisted (from Demo.flags) initial))
             (fst (GetProjects Outage.staging_unlisted (to Demo.flags)
                     {| issues := [];
                        trace := trace (fst (GetProjects Outage.staging_unlisted
                                               (from Demo.flags) initial)) |}))
             "googleapi: Error 403: Forbidden" [Demo.dev_billing]);
    [|reflexivity|reflexivity].
  split; [reflexivity|].
  intros c Hc. vm_compute in Hc.
  repeat (destruct Hc as [Hc|Hc];
          [try discriminate Hc; injection Hc as <-; eauto|]).
  destruct Hc.
Defined.

(** X7: with no from-project listed the run returns right after the two
    listings, with an empty issue list: no pattern is compiled, so that an
    expression that would not compile goes unnoticed, and no quota is
    fetched. *)
Theorem no_from_project_nothing_to_do
  (W : World) (flags : Flags) (st st1 st2 : state)
  (toProjects : list cloudresourcemanager.Project) :
  GetProjects W (from flags) st = (st1, Return (inr [])) ->
  GetProjects W (to flags) {| issues := []; trace := trace st1 |}
    = (st2, Return (inr toProjects)) ->
  main W flags st = (st2, Return tt) /\ issues st2 = [].
Proof.
  intros Hfrom Hto. split.
  - unfold main, bind at 1. rewrite Hfrom.
    unfold bind at 1, reset_issues. unfold bind at 1. now rewrite Hto.
  - pose proof (GetProjects_run W (to flags) {| issues := []; trace := trace st1 |})
      as H. simpl in H.
    destruct (cloudresourcemanager_NewService_Do W (trace st1));
      rewrite H in Hto; now inversion Hto.
Qed.

Lemma no_from_project_nothing_to_do_witness :
  regexp_MustCompile (Outage.strict_world Outage.cloud_no_dev)
    (regexFrom Outage.open_group_flags) = None /\
  snd (main (Outage.strict_world Outage.cloud_no_dev) Outage.open_group_flags initial)
    = Return tt.
Proof.
  split; [reflexivity|].
  rewrite (proj1 (@no_from_project_nothing_to_do
             (Outage.strict_world Outage.cloud_no_dev) Outage.open_group_flags initial
             (fst (GetProjects (Outage.strict_world Outage.cloud_no_dev)
                     (from Outage.open_group_flags) initial))
             (fst (GetProjects (Outage.strict_world Outage.cloud_no_dev)
                     (to Outage.open_group_flags)
                     {| issues := [];
                        trace := trace (fst (GetProjects
                                   (Outage.strict_world Outage.cloud_no_dev)
                                   (from Outage.open_group_flags) initial)) |}))
             [Demo.staging_billing] eq_refl eq_refl)).
  reflexivity.
Defined.

(** ** The patterns *)

(** X8: the name is read at index 1 of the submatch slice.  A from-project
    for which the slice is shorter, because the source pattern does not match
    its id or because the pattern matches but has no capture group, ends the
    run in an index-out-of-range panic, before the target pattern is built
    and before any quota is fetched: the state is left as it was. *)
Theorem short_submatch_panics
  (W : World) (flags : Flags)
  (toProjects : list cloudresourcemanager.Project)
  (fromProject : cloudresourcemanager.Project)
  (r : regexp.Regexp) (st : state) :
  regexp_MustCompile W (regexFrom flags) = Some r ->
  List.length (regexp.FindStringSubmatch r
                 (cloudresourcemanager.ProjectId fromProject)) < 2 ->
  fromProjectBody W flags toProjects fromProject st
  = (st, Panic (IndexOutOfRange 1
                  (List.length (regexp.FindStringSubmatch r
                                  (cloudresourcemanager.ProjectId fromProject))))).
Proof.
  intros Hr Hlen. unfold fromProjectBody, MustCompile, index. rewrite Hr.
  unfold bind at 1, ret at 1.
  destruct (nth_error _ 1) as [name|] eqn:E; [|reflexivity].
  exfalso. assert (H : nth_error
    (regexp.FindStringSubmatch r (cloudresourcemanager.ProjectId fromProject)) 1
    <> None) by (rewrite E; discriminate).
  apply nth_error_Some in H.
  apply (PeanoNat.Nat.lt_irrefl 1).
  apply (PeanoNat.Nat.lt_le_trans _ _ _ H).
  now apply PeanoNat.Nat.lt_succ_r.
Qed.

Lemma short_submatch_panics_witness :
  fromProjectBody (Demo.world Scenario.cloud_cpus) Outage.groupless_flags
    [Demo.staging_billing] Demo.staging_billing initial
  = (initial, Panic (IndexOutOfRange 1 1)).
Proof.
  apply (@short_submatch_panics (Demo.world Scenario.cloud_cpus)
           Outage.groupless_flags [Demo.staging_billing] Demo.staging_billing
           Scenario.billing_pattern initial).
  - reflexivity.
  - vm_compute. constructor.
Defined.

(** X9: the patterns are compiled anew for every from-project, inside the
    loop.  A source pattern that does not compile ends the run in the panic
    of [regexp.MustCompile] at the first from-project, with the state as the
    two listings left it: nothing was fetched or compared. *)
Theorem source_pattern_panics_at_first_project
  (W : World) (flags : Flags) (st st1 st2 : state)
  (fromProject : cloudresourcemanager.Project)
  (rest toProjects : list cloudresourcemanager.Project) :
  GetProjects W (from flags) st = (st1, Return (inr (fromProject :: rest))) ->
  GetProjects W (to flags) {| issues := []; trace := trace st1 |}
    = (st2, Return (inr toProjects)) ->
  regexp_MustCompile W (regexFrom flags) = None ->
  main W flags st = (st2, Panic (RegexpCompile (regexFrom flags))).
Proof.
  intros Hfrom Hto Hr. unfold main, bind at 1. rewrite Hfrom.
  unfold bind at 1, reset_issues. unfold bind at 1. rewrite Hto.
  simpl. unfold bind at 1, fromProjectBody, MustCompile. rewrite Hr. reflexivity.
Qed.

Lemma source_pattern_panics_at_first_project_witness :
  snd (main (Outage.strict_world Scenario.cloud_cpus) Outage.open_group_flags initial)
  = Panic (RegexpCompile "prj-(").
Proof.
  rewrite (@source_pattern_panics_at_first_project
             (Outage.strict_world Scenario.cloud_cpus) Outage.open_group_flags initial
             (fst (GetProjects (Outage.strict_world Scenario.cloud_cpus)
                     (from Outage.open_group_flags) initial))
             (fst (GetProjects (Outage.strict_world Scenario.cloud_cpus)
                     (to Outage.open_group_flags)
                     {| issues := [];
                        trace := trace (fst (GetProjects
                                   (Outage.strict_world Scenario.cloud_cpus)
                                   (from Outage.open_group_flags) initial)) |}))
             Demo.dev_billing [] [Demo.staging_billing] eq_refl eq_refl eq_refl).
  reflexivity.
Defined.

(** X10: the target pattern is the template filled with the captured name,
    as it is.  When the result does not compile the run ends in the panic of
    [regexp.MustCompile] for that from-project, before its quotas are
    fetched: the state is left as it was. *)
Theorem target_pattern_panics_before_fetch
  (W : World) (flags : Flags)
  (toProjects : list cloudresourcemanager.Project)
  (fromProject : cloudresourcemanager.Project)
  (r : regexp.Regexp) (projectName : string) (st : state) :
  regexp_MustCompile W (regexFrom flags) = Some r ->
  nth_error (regexp.FindStringSubmatch r (cloudresourcemanager.ProjectId fromProject)) 1
    = Some projectName ->
  regexp_MustCompile W (fmt_Sprintf W (regexTo flags) projectName) = None ->
  fromProjectBody W flags toProjects fromProject st
  = (st, Panic (RegexpCompile (fmt_Sprintf W (regexTo flags) projectName))).
Proof.
  intros Hr Hname Hr1. unfold fromProjectBody, MustCompile, index. rewrite Hr.
  unfold bind at 1, ret at 1. rewrite Hname.
  unfold bind at 1, ret at 1. now rewrite Hr1.
Qed.

Lemma target_pattern_panics_before_fetch_witness :
  fromProjectBody Outage.open_template_world Outage.open_template_flags
    [Demo.staging_billing] Demo.dev_billing initial
  = (initial, Panic (RegexpCompile "prj-(billing")).
Proof.
  apply (@target_pattern_panics_before_fetch Outage.open_template_world
           Outage.open_template_flags [Demo.staging_billing] Demo.dev_billing
           Scenario.source_pattern "billing" initial); reflexivity.
Defined.

(** X11: [GetProjectIds] lists the ids in the order of the projects, and
    the to-project the search settles on is the one whose id is the first of
    these ids that the target pattern matches; the search finds nothing
    exactly when no id matches. *)
Theorem findProject_first_matching_id
  (r1 : regexp.Regexp) (toProjects : list cloudresourcemanager.Project) :
  option_map cloudresourcemanager.ProjectId (findProject r1 toProjects)
  = find (regexp.MatchString r1) (GetProjectIds toProjects) /\
  (findProject r1 toProjects = None <->
   forall id, In id (GetProjectIds toProjects) -> regexp.MatchString r1 id = false).
Proof.
  split.
  - unfold findProject, GetProjectIds.
    induction toProjects as [|p ps IH]; simpl; [reflexivity|].
    now destruct (regexp.MatchString r1 (cloudresourcemanager.ProjectId p)).
  - unfold findProject, GetProjectIds. split.
    + intros Hnone id Hid. apply in_map_iff in Hid as (p & <- & Hp).
      apply (find_none _ _ Hnone _ Hp).
    + intros Hall. destruct (find _ toProjects) as [p|] eqn:E; [|reflexivity].
      apply find_some in E as [Hin Hm].
      rewrite (Hall _ (in_map _ _ _ Hin)) in Hm. discriminate.
Qed.

(** ** Regions *)

Lemma filter_all A (P : A -> bool) (l : list A) :
  (forall x, In x l -> P x = true) -> filter P l = l.
Proof.
  induction l as [|x l IH]; intros H; simpl; [reflexivity|].
  rewrite (H x) by now left. f_equal. apply IH. intros y Hy. apply H. now right.
Qed.

Lemma filter_none A (P : A -> bool) (l : list A) :
  (forall x, In x l -> P x = false) -> filter P l = [].
Proof.
  induction l as [|x l IH]; intros H; simpl; [reflexivity|].
  rewrite (H x) by now left. apply IH. intros y Hy. apply H. now right.
Qed.

(** The issues of one from-region carry its name. *)
Lemma regionIssues_region
  (fromProject toProjectFound : cloudresourcemanager.Project)
  (toItems : list compute.Region.t) (r : compute.Region.t) (i : Issue) :
  In i (regionIssues fromProject toProjectFound toItems r) ->
  region i = compute.Region.Name r /\
  In (compute.Region.Name r) (regionNames toItems).
Proof.
  unfold regionIssues, findRegion. intros Hi.
  destruct (find _ toItems) as [r'|] eqn:E; [|destruct Hi].
  apply find_key in E as [Hin Hk].
  apply quotaIssues_both_sides in Hi as (Hreg & _). split; [assumption|].
  rewrite <- Hk. unfold regionNames. now apply in_map.
Qed.

(** X12: a from-region whose name no to-region has is reported by its
    "Region does not exist" line and by nothing else: the region pass
    returns, none of the issues it adds is for that region, and none of its
    metrics gets a "Metric does not exist" line. *)
Theorem region_without_counterpart
  (fromProject toProjectFound : cloudresourcemanager.Project)
  (fq tq : Quotas) (frl trl : compute.RegionList.t)
  (r : compute.Region.t) (st : state) :
  regionList fq = Some frl -> regionList tq = Some trl ->
  In r (compute.RegionList.Items frl) ->
  ~ In (compute.Region.Name r) (regionNames (compute.RegionList.Items trl)) ->
  exists iss es,
    regionPass fromProject toProjectFound (Some fq) (Some tq) st
      = ({| issues := issues st ++ iss; trace := trace st ++ es |}, Return tt) /\
    In (regionMissing fromProject (compute.Region.Name r)) es /\
    (forall i, In i iss -> region i <> compute.Region.Name r) /\
    (forall m, ~ In (regionMetricMissing fromProject (compute.Region.Name r) m) es).
Proof.
  intros Hfrl Htrl Hr Habsent.
  eexists. eexists. split; [apply (regionPass_adds _ _ _ _ Hfrl Htrl)|].
  split; [|split].
  - apply in_flat_map. exists r. split; [assumption|].
    unfold regionEvents, findRegion.
    rewrite (find_absent compute.Region.Name _ _ Habsent). now left.
  - intros i Hi E. apply in_flat_map in Hi as (r0 & _ & Hi).
    apply regionIssues_region in Hi as [Hreg Hin].
    apply Habsent. now rewrite <- E, Hreg.
  - intros m Hm. apply in_flat_map in Hm as (r0 & _ & Hm).
    unfold regionEvents, findRegion in Hm.
    destruct (find _ (compute.RegionList.Items trl)) as [r'|] eqn:E.
    + apply find_key in E as [Hin Hk].
      apply in_flat_map in Hm as (q & _ & Hm). unfold regionQuotaEvents in Hm.
      destruct (findQuota _ _) as [q'|].
      * destruct (float64_ne _ _); [|destruct Hm].
        destruct Hm as [Hm|[]]. discriminate Hm.
      * destruct Hm as [Hm|[]]. unfold regionMetricMissing in Hm.
        injection Hm as Hname _. apply Habsent. rewrite <- Hname.
        unfold regionNames. now apply in_map.
    + destruct Hm as [Hm|[]]. discriminate Hm.
Qed.

Lemma region_without_counterpart_witness :
  exists iss es,
    regionPass Demo.dev_billing Demo.staging_billing
      (Some {| projectId := "prj-dev-billing-ab12";
               project := Demo.quotas [];
               regionList := Some (Demo.regions
                 [Demo.reg "us-east1" [Demo.quota "DISKS_TOTAL_GB" 500]]) |})
      (Some {| projectId := "prj-staging-billing-cd34";
               project := Demo.quotas [];
               regionList := Some (Demo.regions []) |}) initial
      = ({| issues := issues initial ++ iss; trace := trace initial ++ es |},
         Return tt) /\
    In (regionMissing Demo.dev_billing "us-east1") es /\
    (forall i, In i iss -> region i <> "us-east1") /\
    (forall m, ~ In (regionMetricMissing Demo.dev_billing "us-east1" m) es).
Proof.
  apply (@region_without_counterpart Demo.dev_billing Demo.staging_billing
           _ _ (Demo.regions [Demo.reg "us-east1" [Demo.quota "DISKS_TOTAL_GB" 500]])
           (Demo.regions [])
           (Demo.reg "us-east1" [Demo.quota "DISKS_TOTAL_GB" 500]) initial).
  - reflexivity.
  - reflexivity.
  - simpl. auto.
  - simpl. tauto.
Defined.

(** X13: regions are compared independently of each other.  With region
    names unique on the from side, the issues of the region pass that carry
    the name of a from-region are exactly, and in the same order, the issues
    that the comparison of that region with its counterpart adds on its
    own. *)
Theorem region_issues_are_its_own
  (fromProject toProjectFound : cloudresourcemanager.Project)
  (fq tq : Quotas) (frl trl : compute.RegionList.t)
  (r r' : compute.Region.t) (h h' : history) :
  regionList fq = Some frl -> regionList tq = Some trl ->
  NoDup (regionNames (compute.RegionList.Items frl)) ->
  In r (compute.RegionList.Items frl) ->
  findRegion (compute.Region.Name r) (compute.RegionList.Items trl) = Some r' ->
  filter (fun i => String.eqb (region i) (compute.Region.Name r))
    (issues (fst (regionPass fromProject toProjectFound (Some fq) (Some tq)
                    {| issues := []; trace := h |})))
  = issues (fst (range (compute.Region.Quotas r)
                   (regionQuotaBody fromProject toProjectFound r r')
                   {| issues := []; trace := h' |})).
Proof.
  intros Hfrl Htrl Hnd Hr Hfind.
  rewrite (regionPass_adds fromProject toProjectFound _ _ Hfrl Htrl).
  rewrite (adds_range (regionQuotaBody fromProject toProjectFound r r')
             (quotaIssues fromProject toProjectFound (compute.Region.Name r)
                (compute.Region.Quotas r'))
             (regionQuotaEvents fromProject toProjectFound r r')).
  2:{ intros q _. apply regionQuotaBody_adds. }
  simpl.
  assert (Hown : regionIssues fromProject toProjectFound
                   (compute.RegionList.Items trl) r
                 = flat_map (quotaIssues fromProject toProjectFound
                               (compute.Region.Name r) (compute.Region.Quotas r'))
                            (compute.Region.Quotas r)).
  { unfold regionIssues. now rewrite Hfind. }
  rewrite <- Hown. clear Hown Hfind.
  induction (compute.RegionList.Items frl) as [|r0 l IH]; [destruct Hr|].
  simpl in Hnd. inversion Hnd as [|? ? Hr0 Hl]; subst.
  simpl. rewrite filter_app. destruct Hr as [->|Hr].
  - rewrite filter_all.
    2:{ intros i Hi. apply regionIssues_region in Hi as [-> _].
        apply String.eqb_refl. }
    rewrite filter_none; [now rewrite app_nil_r|].
    intros i Hi. apply in_flat_map in Hi as (r1 & Hr1 & Hi).
    apply regionIssues_region in Hi as [-> _].
    apply String.eqb_neq. intros E. apply Hr0. rewrite <- E.
    unfold regionNames. now apply in_map.
  - rewrite filter_none.
    2:{ intros i Hi. apply regionIssues_region in Hi as [-> _].
        apply String.eqb_neq. intros E. apply Hr0. rewrite E.
        unfold regionNames. now apply in_map. }
    simpl. now apply IH.
Qed.

Lemma region_issues_are_its_own_witness :
  filter (fun i => String.eqb (region i) "us-east1")
    (issues (fst (regionPass Demo.dev_billing Demo.staging_billing
                    (Some Scenario.dev_snapshot)
                    (Some Scenario.staging_snapshot_more_disks)
                    {| issues := []; trace := [] |})))
  = issues (fst (range [Demo.quota "DISKS_TOTAL_GB" 500; Demo.quota "CPUS" 24]
                   (regionQuotaBody Demo.dev_billing Demo.staging_billing
                      (Demo.reg "us-east1"
                         [Demo.quota "DISKS_TOTAL_GB" 500; Demo.quota "CPUS" 24])
                      (Demo.reg "us-east1"
                         [Demo.quota "CPUS" 24; Demo.quota "DISKS_TOTAL_GB" 1000]))
                   {| issues := []; trace := [] |})).
Proof.
  apply (@region_issues_are_its_own Demo.dev_billing Demo.staging_billing
           Scenario.dev_snapshot Scenario.staging_snapshot_more_disks
           Scenario.dev_regions Scenario.staging_regions_more_disks
           (Demo.reg "us-east1"
              [Demo.quota "DISKS_TOTAL_GB" 500; Demo.quota "CPUS" 24])
           (Demo.reg "us-east1"
              [Demo.quota "CPUS" 24; Demo.quota "DISKS_TOTAL_GB" 1000]) [] []).
  - reflexivity.
  - reflexivity.
  - simpl. no_dup.
  - simpl. auto.
  - reflexivity.
Defined.

(** ** Issues and log lines *)

Section Logged.

Variable fromProject toProjectFound : cloudresourcemanager.Project.

(** A log line tells of an issue when its arguments hold the ids of the two
    projects, the metric and the two limits. *)
Lemma project_issue_logged toQuotas q i :
  In i (quotaIssues fromProject toProjectFound "" toQuotas q) ->
  exists format args,
    In (Printf format args)
       (projectQuotaEvents fromProject toProjectFound toQuotas q) /\
    In (AString (cloudresourcemanager.ProjectId fromProject)) args /\
    In (AString (cloudresourcemanager.ProjectId toProjectFound)) args /\
    In (AString (metric i)) args /\
    In (AFloat (fromLimit i)) args /\
    In (AFloat (toLimit i)) args.
Proof.
  unfold quotaIssues, projectQuotaEvents.
  destruct (findQuota _ _) as [q'|]; [|intros []].
  destruct (float64_ne _ _); [|intros []].
  intros [<-|[]]. eexists. eexists. split; [now left|].
  repeat split; simpl; repeat (first [left; reflexivity | right]).
Qed.

Lemma region_issue_logged r r' q i :
  In i (quotaIssues fromProject toProjectFound (compute.Region.Name r)
          (compute.Region.Quotas r') q) ->
  exists format args,
    In (Printf format args)
       (regionQuotaEvents fromProject toProjectFound r r' q) /\
    In (AString (cloudresourcemanager.ProjectId fromProject)) args /\
    In (AString (cloudresourcemanager.ProjectId toProjectFound)) args /\
    In (AString (metric i)) args /\
    In (AFloat (fromLimit i)) args /\
    In (AFloat (toLimit i)) args.
Proof.
  unfold quotaIssues, regionQuotaEvents.
  destruct (findQuota _ _) as [q'|]; [|intros []].
  destruct (float64_ne _ _); [|intros []].
  intros [<-|[]]. eexists. eexists. split; [now left|].
  repeat split; simpl; repeat (first [left; reflexivity | right]).
Qed.

End Logged.

(** X14: every issue the comparison of a pair appends has its log line,
    written by the same comparison: a line whose arguments hold the ids of
    both projects (the issue itself holds their names), the metric of the
    issue and its two limits. *)
Theorem every_issue_is_logged
  (fromProject toProjectFound : cloudresourcemanager.Project)
  (fq tq : Quotas) (st : state) :
  exists iss es,
    fst (diff fromProject toProjectFound (Some fq) (Some tq) st)
      = {| issues := issues st ++ iss; trace := trace st ++ es |} /\
    forall i, In i iss ->
      exists format args,
        In (Printf format args) es /\
        In (AString (cloudresourcemanager.ProjectId fromProject)) args /\
        In (AString (cloudresourcemanager.ProjectId toProjectFound)) args /\
        In (AString (metric i)) args /\
        In (AFloat (fromLimit i)) args /\
        In (AFloat (toLimit i)) args.
Proof.
  eexists. eexists. split; [apply diff_state|].
  intros i Hi. apply in_app_or in Hi as [Hi|Hi].
  - apply in_flat_map in Hi as (q & Hq & Hi).
    apply project_issue_logged with (toProjectFound := toProjectFound) in Hi
      as (format & args & Hin & Htells).
    exists format, args. split; [|exact Htells].
    apply in_or_app. left. apply in_flat_map. now exists q.
  - unfold regionPassIssues in Hi. unfold regionPassEvents.
    destruct (regionList fq) as [frl|]; [|destruct Hi].
    destruct (regionList tq) as [trl|]; [|destruct Hi].
    apply in_flat_map in Hi as (r & Hr & Hi). unfold regionIssues in Hi.
    destruct (findRegion _ _) as [r'|] eqn:Hfind; [|destruct Hi].
    apply in_flat_map in Hi as (q & Hq & Hi).
    apply region_issue_logged in Hi as (format & args & Hin & Htells).
    exists format, args. split; [|exact Htells].
    apply in_or_app. right. apply in_flat_map. exists r. split; [assumption|].
    unfold regionEvents. rewrite Hfind. apply in_flat_map. now exists q.
Qed.

(** X15: what the comparison of a pair appends depends on the two snapshots
    only, not on the issues found or the lines logged before: from any two
    states it appends the same issues and the same log lines, and compared a
    second time the pair has its issues in the list twice. *)
Theorem diff_appends_the_same
  (fromProject toProjectFound : cloudresourcemanager.Project) (fq tq : Quotas) :
  exists iss es,
    (forall st,
       fst (diff fromProject toProjectFound (Some fq) (Some tq) st)
       = {| issues := issues st ++ iss; trace := trace st ++ es |}) /\
    (forall st,
       issues (fst (diff fromProject toProjectFound (Some fq) (Some tq)
                      (fst (diff fromProject toProjectFound (Some fq) (Some tq) st))))
       = issues st ++ iss ++ iss).
Proof.
  eexists. eexists. split.
  - intros st. apply diff_state.
  - intros st. rewrite !diff_state. simpl. now rewrite <- app_assoc.
Qed.

(** X16: the limits are compared with [!=] on float64 and nothing else.  A
    metric found on both sides with a NaN limit on either side is always
    reported, also when both limits are NaN; limits that are zeros are never
    reported, whatever their signs. *)
Theorem nan_always_zero_never
  (fromProject toProjectFound : cloudresourcemanager.Project)
  (tq : Quotas) (q q' : compute.Quota) (st : state) :
  findQuota (compute.Metric q) (compute.Project.Quotas (project tq)) = Some q' ->
  ((compute.Limit q = S754_nan \/ compute.Limit q' = S754_nan) ->
   exists i,
     issues (fst (projectQuotaBody fromProject toProjectFound (Some tq) q st))
       = issues st ++ [i] /\
     metric i = compute.Metric q /\
     fromLimit i = compute.Limit q /\ toLimit i = compute.Limit q') /\
  (forall s s', compute.Limit q = S754_zero s -> compute.Limit q' = S754_zero s' ->
   projectQuotaBody fromProject toProjectFound (Some tq) q st = (st, Return tt)).
Proof.
  intros Hfind. split.
  - intros Hnan. rewrite projectQuotaBody_adds. simpl.
    unfold quotaIssues. rewrite Hfind.
    assert (Hne : float64_ne (compute.Limit q') (compute.Limit q) = true).
    { unfold float64_ne, SFeqb, SFcompare.
      destruct Hnan as [->| ->]; [now destruct (compute.Limit q')|reflexivity]. }
    rewrite Hne. eexists. split; [reflexivity|]. simpl. auto.
  - intros s s' Hs Hs'. rewrite projectQuotaBody_adds.
    unfold quotaIssues, projectQuotaEvents. rewrite Hfind, Hs, Hs'. simpl.
    now rewrite extend_nil.
Qed.

Lemma nan_always_zero_never_witness :
  (exists i,
     issues (fst (projectQuotaBody Demo.dev_billing Demo.staging_billing
                    (Some {| projectId := "prj-staging-billing-cd34";
                             project := Demo.quotas [Outage.nan_quota "CPUS"];
                             regionList := None |})
                    (Outage.nan_quota "CPUS") initial))
       = [i] /\ fromLimit i = S754_nan /\ toLimit i = S754_nan) /\
  projectQuotaBody Demo.dev_billing Demo.staging_billing
    (Some {| projectId := "prj-staging-billing-cd34";
             project := Demo.quotas [Outage.zero_quota "CPUS" true];
             regionList := None |})
    (Outage.zero_quota "CPUS" false) initial
  = (initial, Return tt).
Proof.
  split.
  - destruct (proj1 (@nan_always_zero_never Demo.dev_billing Demo.staging_billing
                       {| projectId := "prj-staging-billing-cd34";
                          project := Demo.quotas [Outage.nan_quota "CPUS"];
                          regionList := None |}
                       (Outage.nan_quota "CPUS") (Outage.nan_quota "CPUS") initial
                       eq_refl) (or_introl eq_refl))
      as (i & Hi & _ & Hfrom & Hto).
    exists i. auto.
  - apply (proj2 (@nan_always_zero_never Demo.dev_billing Demo.staging_billing
                    {| projectId := "prj-staging-billing-cd34";
                       project := Demo.quotas [Outage.zero_quota "CPUS" true];
                       regionList := None |}
                    (Outage.zero_quota "CPUS" false) (Outage.zero_quota "CPUS" true)
                    initial eq_refl) false true eq_refl eq_refl).
Defined.

(** ** The loop over the from-projects *)

Lemma range_app A (body : A -> M unit) (l1 l2 : list A) (st : state) :
  range (l1 ++ l2) body st
  = match range l1 body st with
    | (st1, Return _) => range l2 body st1
    | (st1, Fatal) => (st1, Fatal)
    | (st1, Panic p) => (st1, Panic p)
    end.
Proof.
  revert st. induction l1 as [|x l1 IH]; intros st; simpl.
  - reflexivity.
  - unfold bind. destruct (body x st) as [st' [[]| |p]]; auto.
Qed.

(** X17: the from-projects are taken in the order of the listing, and the
    first one whose turn ends the run is the last one looked at: the run
    ends as that turn ends, and the from-projects behind it are neither
    fetched nor compared. *)
Theorem abort_ends_the_loop
  (W : World) (flags : Flags)
  (toProjects pre post : list cloudresourcemanager.Project)
  (fromProject : cloudresourcemanager.Project) (st st1 : state) :
  range pre (fromProjectBody W flags toProjects) st = (st1, Return tt) ->
  aborted (snd (fromProjectBody W flags toProjects fromProject st1)) = true ->
  range (pre ++ fromProject :: post) (fromProjectBody W flags toProjects) st
  = fromProjectBody W flags toProjects fromProject st1.
Proof.
  intros Hpre Habort. rewrite range_app, Hpre. simpl. unfold bind.
  destruct (fromProjectBody W flags toProjects fromProject st1) as [st2 [[]| |p]];
    [discriminate Habort|reflexivity|reflexivity].
Qed.

Lemma abort_ends_the_loop_witness :
  snd (range ([Demo.dev_billing] ++ Demo.dev_legacy :: [Demo.dev_web])
         (fromProjectBody (Demo.world Scenario.cloud_unmatched) Demo.flags
            [Demo.staging_web]) initial)
  = Panic (IndexOutOfRange 1 0) /\
  ~ In (Api (Projects_Get "prj-dev-web-ef56"))
       (trace (fst (range ([Demo.dev_billing] ++ Demo.dev_legacy :: [Demo.dev_web])
                      (fromProjectBody (Demo.world Scenario.cloud_unmatched)
                         Demo.flags [Demo.staging_web]) initial))).
Proof.
  rewrite (@abort_ends_the_loop (Demo.world Scenario.cloud_unmatched) Demo.flags
             [Demo.staging_web] [Demo.dev_billing] [Demo.dev_web] Demo.dev_legacy
             initial
             (fst (range [Demo.dev_billing]
                     (fromProjectBody (Demo.world Scenario.cloud_unmatched)
                        Demo.flags [Demo.staging_web]) initial))
             eq_refl eq_refl).
  split; [reflexivity|].
  vm_compute. intros H.
  repeat (destruct H as [H|H]; [discriminate H|]). destruct H.
Defined.

(** ** Nothing is taken back *)

Lemma grows_ret A (a : A) : grows (ret a).
Proof. intros st. exists [], []. simpl. now rewrite extend_nil. Qed.

Lemma grows_raise A (p : panic) : grows (@raise A p).
Proof. intros st. exists [], []. simpl. now rewrite extend_nil. Qed.

Lemma grows_exit1 A : grows (@exit1 A).
Proof. intros st. exists [], []. simpl. now rewrite extend_nil. Qed.

Lemma grows_emit e : grows (emit e).
Proof.
  intros st. exists [], [e]. unfold emit, extend. simpl. now rewrite app_nil_r.
Qed.

Lemma grows_api A (c : call) (oracle : history -> A) : grows (api c oracle).
Proof.
  intros st. exists [], [Api c]. unfold api, extend. simpl. now rewrite app_nil_r.
Qed.

Lemma grows_append_issue i : grows (append_issue i).
Proof.
  intros st. exists [i], []. unfold append_issue, extend. simpl.
  now rewrite app_nil_r.
Qed.

Lemma grows_bind A B (c : M A) (k : A -> M B) :
  grows c -> (forall a, grows (k a)) -> grows (bind c k).
Proof.
  intros Hc Hk st. unfold bind. destruct (Hc st) as (iss & es & E).
  destruct (c st) as [st' [a| |p]]; simpl in E; subst st'.
  - destruct (Hk a (extend st iss es)) as (iss' & es' & E').
    exists (iss ++ iss'), (es ++ es'). now rewrite E', extend_extend.
  - now exists iss, es.
  - now exists iss, es.
Qed.

Lemma grows_range A (body : A -> M unit) (l : list A) :
  (forall x, grows (body x)) -> grows (range l body).
Proof.
  intros Hbody. induction l as [|x l IH]; simpl.
  - apply grows_ret.
  - apply grows_bind; [apply Hbody|intros _; apply IH].
Qed.

Lemma grows_deref A (p : option A) : grows (deref p).
Proof. destruct p; [apply grows_ret|apply grows_raise]. Qed.

Lemma grows_log_Fatalf A format args : grows (@log_Fatalf A format args).
Proof.
  apply grows_bind; [apply grows_emit|intros _; apply grows_exit1].
Qed.

(** One step of a proof that a computation grows the state: the primitives
    by their lemmas, a sequence by its parts, a branch by cases. *)
Ltac grow_step :=
  first
    [ apply grows_ret | apply grows_raise | apply grows_exit1
    | apply grows_emit | apply grows_api | apply grows_append_issue
    | apply grows_deref | apply grows_log_Fatalf
    | apply grows_range; intros ?
    | apply grows_bind; [|intros ?]
    | progress cbv zeta
    | match goal with
      | |- grows (match ?x with _ => _ end) => destruct x
      end ].

Lemma grows_GetQuotas W id : grows (GetQuotas W id).
Proof. unfold GetQuotas, log_Printf. repeat grow_step. Qed.

Lemma grows_diff fromProject toProjectFound fpq tpq :
  grows (diff fromProject toProjectFound fpq tpq).
Proof.
  unfold diff, projectPass, regionPass, regionBody, projectQuotaBody,
    regionQuotaBody, log_Printf.
  repeat grow_step.
Qed.

Lemma grows_fromProjectBody W flags toProjects fromProject :
  grows (fromProjectBody W flags toProjects fromProject).
Proof.
  unfold fromProjectBody, foundBody, MustCompile, index.
  repeat first [apply grows_GetQuotas | apply grows_diff | grow_step].
Qed.

(** X18: nothing that was found or logged is taken back.  Whatever the
    from-projects, the APIs and the patterns do, and however the loop ends,
    the state after the loop over the from-projects is the state before it
    with issues and trace entries appended; and a run of [main] only appends
    to the trace. *)
Theorem run_only_appends (W : World) (flags : Flags) :
  (forall toProjects fromProjects st,
     exists iss es,
       fst (range fromProjects (fromProjectBody W flags toProjects) st)
       = {| issues := issues st ++ iss; trace := trace st ++ es |}) /\
  (forall st, exists es, trace (fst (main W flags st)) = trace st ++ es).
Proof.
  split.
  - intros toProjects fromProjects st.
    apply (@grows_range _ (fromProjectBody W flags toProjects) fromProjects).
    intros p. apply grows_fromProjectBody.
  - intros st. unfold main, bind at 1.
    pose proof (GetProjects_run W (from flags) st) as Hfrom. simpl in Hfrom.
    destruct (cloudresourcemanager_NewService_Do W (trace st)); rewrite Hfrom.
    + eexists. simpl. now rewrite <- app_assoc.
    + unfold bind at 1, reset_issues.
      destruct (Projects_List_Do W _ _) as [err|fromProjects].
      * eexists. simpl. now rewrite <- !app_assoc.
      * unfold bind at 1.
        match goal with
        | |- context [GetProjects W (to flags) ?s] =>
          pose proof (GetProjects_run W (to flags) s) as Hto;
          destruct (cloudresourcemanager_NewService_Do W (trace s));
          cbv zeta in Hto; rewrite Hto
        end.
        -- eexists. simpl. now rewrite <- !app_assoc.
        -- destruct (Projects_List_Do W _ _) as [err|toProjects].
           ++ eexists. simpl. now rewrite <- !app_assoc.
           ++ match goal with
              | |- context [range fromProjects ?b ?s] =>
                destruct (@grows_range _ b fromProjects
                            (fun p => grows_fromProjectBody W flags toProjects p) s)
                  as (iss & es & E)
              end.
              rewrite E. eexists. simpl. now rewrite <- !app_assoc.
Qed.

(** ** What the comparison never does *)

Lemma quiet_ret A (a : A) : quiet (ret a).
Proof.
  intros st. exists [], []. simpl. rewrite extend_nil.
  repeat split; [intros e []|discriminate|discriminate].
Qed.

Lemma quiet_deref A (p : option A) : quiet (deref p).
Proof.
  destruct p as [a|]; [apply quiet_ret|].
  intros st. exists [], []. simpl. rewrite extend_nil.
  repeat split; [intros e []|discriminate|now intros p [= <-]].
Qed.

Lemma quiet_log_Printf format args : quiet (log_Printf format args).
Proof.
  intros st. exists [], [Printf format args]. rewrite adds_log_Printf. simpl.
  repeat split; [|discriminate|discriminate].
  intros e [<-|[]]. now exists format, args.
Qed.

Lemma quiet_append_issue i : quiet (append_issue i).
Proof.
  intros st. exists [i], []. rewrite adds_append_issue. simpl.
  repeat split; [intros e []|discriminate|discriminate].
Qed.

Lemma quiet_bind A B (c : M A) (k : A -> M B) :
  quiet c -> (forall a, quiet (k a)) -> quiet (bind c k).
Proof.
  intros Hc Hk st. unfold bind.
  destruct (Hc st) as (iss & es & E & Hes & Hfatal & Hpanic).
  destruct (c st) as [st' [a| |p]]; simpl in *; subst st'.
  - destruct (Hk a (extend st iss es)) as (iss' & es' & E' & Hes' & Hfatal' & Hpanic').
    exists (iss ++ iss'), (es ++ es'). rewrite E', extend_extend.
    repeat split; try assumption.
    intros e He. apply in_app_or in He as [He|He]; auto.
  - now elim Hfatal.
  - exists iss, es. repeat split; try assumption.
    + discriminate.
    + intros p0 [= <-]. exact (Hpanic p eq_refl).
Qed.

Lemma quiet_range A (body : A -> M unit) (l : list A) :
  (forall x, quiet (body x)) -> quiet (range l body).
Proof.
  intros Hbody. induction l as [|x l IH]; simpl.
  - apply quiet_ret.
  - apply quiet_bind; [apply Hbody|intros _; apply IH].
Qed.

Ltac quiet_step :=
  first
    [ apply quiet_ret | apply quiet_deref | apply quiet_log_Printf
    | apply quiet_append_issue
    | apply quiet_range; intros ?
    | apply quiet_bind; [|intros ?]
    | progress cbv zeta
    | match goal with
      | |- quiet (match ?x with _ => _ end) => destruct x
      end ].

Lemma quiet_diff fromProject toProjectFound fromProjectQuotas toProjectQuotas :
  quiet (diff fromProject toProjectFound fromProjectQuotas toProjectQuotas).
Proof.
  unfold diff, projectPass, regionPass, regionBody, projectQuotaBody,
    regionQuotaBody.
  repeat quiet_step.
Qed.

(** X19: the comparison of a pair works on the two snapshots alone.
    Whatever pointers it is given, it makes no API call (all it adds to the
    trace are log lines), it never exits through [log.Fatalf], and if it
    does not return it is because it followed a nil pointer. *)
Theorem diff_is_quiet
  (fromProject toProjectFound : cloudresourcemanager.Project)
  (fromProjectQuotas toProjectQuotas : option Quotas) (st : state) :
  exists iss es,
    fst (diff fromProject toProjectFound fromProjectQuotas toProjectQuotas st)
      = {| issues := issues st ++ iss; trace := trace st ++ es |} /\
    (forall e, In e es -> exists format args, e = Printf format args) /\
    (snd (diff fromProject toProjectFound fromProjectQuotas toProjectQuotas st)
       = Return tt \/
     snd (diff fromProject toProjectFound fromProjectQuotas toProjectQuotas st)
       = Panic NilPointerDereference).
Proof.
  destruct (quiet_diff fromProject toProjectFound
              fromProjectQuotas toProjectQuotas st)
    as (iss & es & E & Hes & Hfatal & Hpanic).
  exists iss, es. split; [exact E|]. split; [exact Hes|].
  destruct (snd (diff _ _ _ _ st)) as [[]| |p].
  - now left.
  - now elim Hfatal.
  - right. now rewrite (Hpanic p eq_refl).
Qed.

(** X20: the comparison returns exactly for the pairs of pointers that are
    [comparable], and panics on a nil pointer for all others.  A nil from
    side or a nil region list of the from side always panics; a nil to side
    panics unless the from side has neither a project quota nor a region,
    and a nil region list of the to side panics unless the from side has no
    region. *)
Theorem diff_returns_iff_comparable
  (fromProject toProjectFound : cloudresourcemanager.Project)
  (fromProjectQuotas toProjectQuotas : option Quotas) (st : state) :
  snd (diff fromProject toProjectFound fromProjectQuotas toProjectQuotas st)
  = if comparable fromProjectQuotas toProjectQuotas
    then Return tt
    else Panic NilPointerDereference.
Proof.
  destruct fromProjectQuotas as [fq|]; [|reflexivity].
  unfold comparable.
  destruct toProjectQuotas as [tq|].
  - unfold diff, bind at 1. rewrite projectPass_adds.
    destruct (regionList fq) as [frl|] eqn:Hfrl.
    + destruct (regionList tq) as [trl|] eqn:Htrl.
      * now rewrite (regionPass_adds _ _ _ _ Hfrl Htrl).
      * unfold regionPass. simpl. unfold bind at 1, ret at 1. rewrite Hfrl. simpl.
        unfold bind at 1, ret at 1.
        destruct (compute.RegionList.Items frl) as [|r rs]; simpl; [reflexivity|].
        unfold bind at 1, regionBody. simpl. unfold bind at 1, ret at 1.
        now rewrite Htrl.
    + now rewrite regionPass_nil_regions.
  - unfold diff, projectPass, regionPass. simpl. unfold bind, ret. simpl.
    destruct (compute.Project.Quotas (project fq)) as [|q qs]; simpl.
    + destruct (regionList fq) as [frl|]; simpl; [|reflexivity].
      destruct (compute.RegionList.Items frl) as [|r rs]; reflexivity.
    + now destruct (regionList fq).
Qed.

(** ** The queries of one from-project *)

(** The calls of one [GetQuotas]: for a client, for a service, and about the
    project it was given. *)
Lemma GetQuotas_calls (W : World) (id : string) (st : state) :
  exists es o,
    GetQuotas W id st = (extend st [] es, o) /\
    forall c, In (Api c) es ->
      c = google_DefaultClient \/ c = compute_NewService \/
      c = Projects_Get id \/ c = Regions_List id.
Proof.
  destruct (GetQuotas_cases W id st) as (es & o & E & Hcases).
  exists (Api google_DefaultClient :: es), o. split.
  - rewrite E. unfold extend. now rewrite app_nil_r.
  - intros c [Hc|Hc]; [injection Hc as <-; auto|].
    destruct Hcases as [(e & -> & _)|[(e & -> & _)|[(e & -> & _)|
                       [(p & e & -> & _)|(p & rl & -> & _)]]]];
      simpl in Hc; in_cases; try discriminate Hc; injection Hc as <-; auto.
Qed.

(** X21: a from-project costs queries about itself and about the to-project
    found for it, and about no other project: every API call of its turn is
    for a client, for a service, or a project or region query with the id of
    the from-project or the id of the first to-project that the target
    pattern matches. *)
Theorem only_the_pair_is_queried
  (W : World) (flags : Flags)
  (toProjects : list cloudresourcemanager.Project)
  (fromProject : cloudresourcemanager.Project)
  (r r1 : regexp.Regexp) (projectName : string) (st : state) :
  regexp_MustCompile W (regexFrom flags) = Some r ->
  nth_error (regexp.FindStringSubmatch r (cloudresourcemanager.ProjectId fromProject)) 1
    = Some projectName ->
  regexp_MustCompile W (fmt_Sprintf W (regexTo flags) projectName) = Some r1 ->
  exists es,
    trace (fst (fromProjectBody W flags toProjects fromProject st)) = trace st ++ es /\
    forall c, In (Api c) es ->
      c = google_DefaultClient \/ c = compute_NewService \/
      c = Projects_Get (cloudresourcemanager.ProjectId fromProject) \/
      c = Regions_List (cloudresourcemanager.ProjectId fromProject) \/
      exists toProjectFound,
        findProject r1 toProjects = Some toProjectFound /\
        (c = Projects_Get (cloudresourcemanager.ProjectId toProjectFound) \/
         c = Regions_List (cloudresourcemanager.ProjectId toProjectFound)).
Proof.
  intros Hr Hname Hr1. unfold fromProjectBody, MustCompile, index. rewrite Hr.
  unfold bind at 1, ret at 1. rewrite Hname.
  unfold bind at 1, ret at 1. rewrite Hr1.
  unfold bind at 1, ret at 1. unfold bind at 1.
  destruct (GetQuotas_calls W (cloudresourcemanager.ProjectId fromProject) st)
    as (es & o & -> & Hes).
  assert (Hfrom : forall c, In (Api c) es ->
    c = google_DefaultClient \/ c = compute_NewService \/
    c = Projects_Get (cloudresourcemanager.ProjectId fromProject) \/
    c = Regions_List (cloudresourcemanager.ProjectId fromProject) \/
    exists toProjectFound,
      findProject r1 toProjects = Some toProjectFound /\
      (c = Projects_Get (cloudresourcemanager.ProjectId toProjectFound) \/
       c = Regions_List (cloudresourcemanager.ProjectId toProjectFound))).
  { intros c Hc. destruct (Hes c Hc) as [H|[H|[H|H]]]; auto. }
  destruct o as [[[err|] fpq]| |p]; try (now exists es).
  - (* the fetch returned an error *)
    exists (es ++ [Printf "Error with project %s: %s"
                     [AString (cloudresourcemanager.ProjectId fromProject);
                      AError err]]).
    split; [unfold log_Fatalf, bind, emit, exit1; simpl; now rewrite <- ?app_assoc|].
    intros c Hc. apply in_app_or in Hc as [Hc|[Hc|[]]]; [auto|discriminate Hc].
  - destruct (findProject r1 toProjects) as [toProjectFound|] eqn:Hfind;
      [|now exists es].
    unfold foundBody, bind at 1.
    destruct (GetQuotas_calls W (cloudresourcemanager.ProjectId toProjectFound)
                (extend st [] es)) as (es' & o' & -> & Hes').
    rewrite extend_extend. simpl.
    assert (Hto : forall c, In (Api c) (es ++ es') ->
      c = google_DefaultClient \/ c = compute_NewService \/
      c = Projects_Get (cloudresourcemanager.ProjectId fromProject) \/
      c = Regions_List (cloudresourcemanager.ProjectId fromProject) \/
      exists toProjectFound0,
        Some toProjectFound = Some toProjectFound0 /\
        (c = Projects_Get (cloudresourcemanager.ProjectId toProjectFound0) \/
         c = Regions_List (cloudresourcemanager.ProjectId toProjectFound0))).
    { intros c Hc. apply in_app_or in Hc as [Hc|Hc].
      - destruct (Hes c Hc) as [H|[H|[H|H]]]; auto.
      - destruct (Hes' c Hc) as [H|[H|[H|H]]]; auto.
        + right. right. right. right. exists toProjectFound. auto.
        + right. right. right. right. exists toProjectFound. auto. }
    destruct o' as [[[err|] tpq]| |p]; try (now exists (es ++ es')).
    + exists ((es ++ es') ++ [Printf "Error with project %s: %s"
                     [AString (cloudresourcemanager.ProjectId fromProject);
                      AError err]]).
      split; [unfold log_Fatalf, bind, emit, exit1; simpl; now rewrite <- ?app_assoc|].
      intros c Hc. apply in_app_or in Hc as [Hc|[Hc|[]]]; [auto|discriminate Hc].
    + destruct (quiet_diff fromProject toProjectFound fpq tpq
                  (extend st [] (es ++ es'))) as (iss & es2 & E & Hes2 & _).
      exists ((es ++ es') ++ es2). rewrite E. simpl.
      split; [now rewrite <- ?app_assoc|].
      intros c Hc. apply in_app_or in Hc as [Hc|Hc]; [auto|].
      destruct (Hes2 _ Hc) as (format & args & Habs). discriminate Habs.
Qed.

Lemma only_the_pair_is_queried_witness :
  ~ In (Api (Projects_Get "prj-staging-billing-cd34"))
       (trace (fst (fromProjectBody (Demo.world Scenario.cloud_to_unreadable)
                      Demo.flags [Demo.staging_billing; Demo.staging_web]
                      Demo.dev_web initial))).
Proof.
  destruct (@only_the_pair_is_queried (Demo.world Scenario.cloud_to_unreadable)
              Demo.flags [Demo.staging_billing; Demo.staging_web] Demo.dev_web
              Scenario.source_pattern
              (Demo.compile (Demo.Sprintf (regexTo Demo.flags) "web")) "web" initial
              eq_refl eq_refl eq_refl) as (es & Htrace & Hes).
  intros Hc. rewrite Htrace in Hc. simpl in Hc.
  destruct (Hes _ Hc) as [H|[H|[H|[H|(p & Hp & [H|H])]]]];
    try discriminate H; injection Hp as <-; discriminate H.
Defined.
